(** * Vaporlight: the low-level protocol codec and the emulator's frame reader

    A shallow embedding of
    - [vaporware/language_bindings/python/llvp.py] (Python 2): the command
      classes with their [to_str] encoders, the generators [NetProtocol.read]
      and [BusProtocol.read];
    - [vaporware/emulator/emulator.py] (Python 3): [Model],
      [Controller.read_frames] and [Controller.run].

    Bytes and Python integers are [Z].  A raised exception is a value of
    [exn]; a generator is a step function on its suspension points. *)

From Stdlib Require Import ZArith List Lia Bool.
From stdpp Require Import base tactics option list gmap.
Import ListNotations.

Local Open Scope Z_scope.

(** ** Exceptions and results *)

(** The exceptions the two files can raise: their own classes
    ([ProtocolViolation] in the emulator; [ProtocolError] and
    [UnexpectedSyncError] in llvp.py) and the built-in ones reached by the
    modelled code. *)
Inductive exn : Type :=
| ProtocolViolation
| ProtocolError
| UnexpectedSyncError
| KeyError
| IndexError
| AttributeError
| ValueError.

Inductive result (A : Type) : Type :=
| Ok (a : A)
| Raise (e : exn).
Arguments Ok {A} a.
Arguments Raise {A} e.

(** The error monad: an exception leaves the enclosing computation.  The
    notation [x ← r; k] is stdpp's. *)
#[global] Instance result_ret : MRet result := fun A a => Ok a.
#[global] Instance result_bind : MBind result := fun A B k r =>
  match r with
  | Ok a => k a
  | Raise e => Raise e
  end.

(** Python's [l[i]] for an integer [i]: a negative index counts from the end,
    anything outside [-len l, len l) is an [IndexError]. *)
Definition py_index {A : Type} (l : list A) (i : Z) : option nat :=
  let n := Z.of_nat (length l) in
  if (0 <=? i) && (i <? n) then Some (Z.to_nat i)
  else if (- n <=? i) && (i <? 0) then Some (Z.to_nat (i + n))
  else None.

Definition py_setitem {A : Type} (l : list A) (i : Z) (x : A) : result (list A) :=
  match py_index l i with
  | Some k => Ok (<[k := x]> l)
  | None => Raise IndexError
  end.

Definition py_getitem {A : Type} (l : list A) (i : Z) : result A :=
  match py_index l i with
  | Some k =>
      match l !! k with
      | Some x => Ok x
      | None => Raise IndexError
      end
  | None => Raise IndexError
  end.

(** Python 2's [chr]: defined on [range(256)] only. *)
Definition chr (z : Z) : result Z :=
  if (0 <=? z) && (z <? 256) then Ok z else Raise ValueError.

(** [str.ljust(width, fill)] on a sequence of characters. *)
Definition ljust (width : nat) (fill : Z) (s : list Z) : list Z :=
  s ++ repeat fill (width - length s)%nat.

(** ** llvp.py: constants of [BusProtocol] *)

Definition STROBE_PADDR : Z := 0xfe.
Definition START_OF_CMD_MARKER : Z := 0x55.
Definition ESCAPE_BYTE : Z := 0x54.

(** [BusProtocol.UNESCAPE = {0x00: 0x54, 0x01: 0x55}], looked up with an
    integer key. *)
Definition UNESCAPE (k : Z) : result Z :=
  if k =? 0x00 then Ok 0x54
  else if k =? 0x01 then Ok 0x55
  else Raise KeyError.

(** [value in BusProtocol.UNESCAPE.values()] *)
Definition in_UNESCAPE_values (value : Z) : bool :=
  (value =? 0x54) || (value =? 0x55).

(** ** llvp.py: the command classes *)

(** One constructor per class; the arguments are the instance attributes
    ([mod_id], [channels]; [led], [_color]; [_token]). *)
Inductive Command : Type :=
| StrobeCommand
| BusStrobeCommand
| BusSetChannelsCommand (mod_id : Z) (channels : list Z)
| SetLedCommand (led : Z) (color : Z * Z * Z * Z)
| AuthenticateCommand (token : list Z)
| HighResSetLedCommand (led : Z) (color : Z * Z * Z * Z).

(** [AuthenticateCommand.__init__]: [token.ljust(16, "\x00")]. *)
Definition new_AuthenticateCommand (token : list Z) : Command :=
  AuthenticateCommand (ljust 16 0x00 token).

(** The loop of [BusSetChannelsCommand.to_str].  [res] is a [str]: the first
    value found in [UNESCAPE.values()] evaluates [res.append], which a [str]
    does not have; any other value is passed over without being written. *)
Fixpoint to_str_loop (res : list Z) (values : list Z) : result (list Z) :=
  match values with
  | [] => Ok res
  | value :: values' =>
      if in_UNESCAPE_values value then Raise AttributeError
      else to_str_loop res values'
  end.

Definition to_str (c : Command) : result (list Z) :=
  match c with
  | StrobeCommand => Ok [0xff]
  | BusStrobeCommand =>
      Ok [START_OF_CMD_MARKER; STROBE_PADDR]
  | BusSetChannelsCommand mod_id channels =>
      to_str_loop [START_OF_CMD_MARKER] (mod_id :: channels)
  | SetLedCommand led (c0, c1, c2, c3) =>
      b1 ← chr (Z.shiftr led 8);
      b2 ← chr (Z.land led 255);
      b3 ← chr c0;
      b4 ← chr c1;
      b5 ← chr c2;
      b6 ← chr c3;
      Ok [0x01; b1; b2; b3; b4; b5; b6]
  | AuthenticateCommand token => Ok (0x02 :: token)
  | HighResSetLedCommand led (c0, c1, c2, c3) =>
      b1 ← chr (Z.shiftr led 8);
      b2 ← chr (Z.land led 255);
      b3 ← chr (Z.shiftr c0 8);
      b4 ← chr (Z.land c0 255);
      b5 ← chr (Z.shiftr c1 8);
      b6 ← chr (Z.land c1 255);
      b7 ← chr (Z.shiftr c2 8);
      b8 ← chr (Z.land c2 255);
      b9 ← chr (Z.shiftr c3 8);
      b10 ← chr (Z.land c3 255);
      Ok [0x03; b1; b2; b3; b4; b5; b6; b7; b8; b9; b10]
  end.


(** ** Generators

    A generator is modelled by its suspension points ([pc]) and a function
    [send] that resumes it with one value and runs it to the next [yield]:
    it returns the new suspension point and the value yielded there
    ([None] for a bare [yield]), or the exception that ends the generator. *)

Inductive outcome (S : Type) : Type :=
| Running (s : S)
| Raised (e : exn).
Arguments Running {S} s.
Arguments Raised {S} e.

Section Drive.
Context {St Out : Type}.
Variable send : St -> Z -> result (St * option Out).

(** [feed s cs] resumes the generator with the values [cs] one after the
    other.  The first component lists what each [send] returned, the
    second is the suspension point reached, or the exception raised (the
    generator is finished then, and nothing after is consumed). *)
Fixpoint feed (s : St) (cs : list Z) : list (option Out) * outcome St :=
  match cs with
  | [] => ([], Running s)
  | c :: cs' =>
      match send s c with
      | Raise e => ([], Raised e)
      | Ok (s', y) => let '(ys, o) := feed s' cs' in (y :: ys, o)
      end
  end.
End Drive.

(** The values yielded, without the bare yields. *)
Definition yielded {Out : Type} (ys : list (option Out)) : list Out :=
  omap id ys.

(** ** llvp.py: [NetProtocol] *)

Module NetProtocol.

Inductive pc : Type :=
| AtOpcode                       (* [opcode = yield ...] *)
| InSetLed (got : list Z)        (* the six [ord((yield))] of lines 69-70 *)
| InAuthenticate (got : list Z). (* [(yield) for i in range(16)] *)

(** In [InAuthenticate], the sixteenth value completes the list and
    [AuthenticateCommand.__init__] calls [ljust] on it: a list has no
    such method. *)
Definition send (s : pc) (c : Z) : result (pc * option Command) :=
  match s with
  | AtOpcode =>
      if c =? 0x01 then Ok (InSetLed [], None)
      else if c =? 0xff then Ok (AtOpcode, Some StrobeCommand)
      else if c =? 0x02 then Ok (InAuthenticate [], None)
      else Raise ProtocolError
  | InSetLed got =>
      match got ++ [c] with
      | [hi; lo; c0; c1; c2; c3] =>
          Ok (AtOpcode,
              Some (SetLedCommand (Z.lor (Z.shiftl hi 8) lo) (c0, c1, c2, c3)))
      | got' => Ok (InSetLed got', None)
      end
  | InAuthenticate got =>
      let got' := got ++ [c] in
      if (length got' =? 16)%nat then Raise AttributeError
      else Ok (InAuthenticate got', None)
  end.

(** The generator after the priming [next()], resumed with [cs]. *)
Definition read (cs : list Z) : list (option Command) * outcome pc :=
  feed send AtOpcode cs.

End NetProtocol.

(** ** llvp.py: [BusProtocol] *)

Module BusProtocol.

Inductive pc : Type :=
| Skipping        (* line 98: [while ord((yield)) != 0x55] *)
| AtAddr          (* line 102: [addr = ord((yield))] *)
| AtEscapedAddr   (* line 104: [addr = self.UNESCAPE[(yield)]] *)
| InValues (addr : Z) (values new_values : list Z) (more : nat)
                  (* line 116: inside the comprehension, [more] further
                     values wanted after the one awaited *)
| AfterCommand.   (* lines 109 and 138: [first_byte_after_cmd = ord((yield ...))] *)

(** Lines 126-136. *)
Fixpoint unescape_loop (escaped : bool) (unescaped values : list Z)
  : result (list Z) :=
  match values with
  | [] => Ok unescaped
  | val :: values' =>
      if val =? ESCAPE_BYTE then unescape_loop true unescaped values'
      else if escaped then
        u ← UNESCAPE val;
        unescape_loop false (unescaped ++ [u]) values'
      else unescape_loop escaped (unescaped ++ [val]) values'
  end.

(** Lines 126-138, up to the [yield]. *)
Definition yield_command (addr : Z) (values : list Z)
  : result (pc * option Command) :=
  unescaped ← unescape_loop false [] values;
  Ok (AfterCommand, Some (BusSetChannelsCommand addr unescaped)).

(** The test of [while continue_reading:] (line 115). *)
Definition while_continue_reading (addr : Z) (values : list Z)
  (continue_reading : nat) : result (pc * option Command) :=
  match continue_reading with
  | O => yield_command addr values
  | S more => Ok (InValues addr values [] more, None)
  end.

(** Lines 118-124, once the comprehension has collected [new_values]. *)
Definition end_of_batch (addr : Z) (values new_values : list Z)
  : result (pc * option Command) :=
  if decide (START_OF_CMD_MARKER ∈ new_values) then Raise UnexpectedSyncError
  else
    let num_of_escapes :=
      length (filter (fun val => val = ESCAPE_BYTE) new_values) in
    while_continue_reading addr (values ++ new_values) num_of_escapes.

Section WithLens.
Variable module_lens : list nat.

(** Lines 108-113. *)
Definition dispatch (addr : Z) : result (pc * option Command) :=
  if addr =? STROBE_PADDR then Ok (AfterCommand, Some BusStrobeCommand)
  else if addr =? START_OF_CMD_MARKER then Raise UnexpectedSyncError
  else
    continue_reading ← py_getitem module_lens addr;
    while_continue_reading addr [] continue_reading.

(** In [AtEscapedAddr] the value sent is used as the key itself, without
    [ord]: a character is not among the integer keys of [UNESCAPE]. *)
Definition send (s : pc) (c : Z) : result (pc * option Command) :=
  match s with
  | Skipping =>
      if c =? 0x55 then Ok (AtAddr, None) else Ok (Skipping, None)
  | AtAddr =>
      if c =? ESCAPE_BYTE then Ok (AtEscapedAddr, None)
      else if c =? START_OF_CMD_MARKER then Raise UnexpectedSyncError
      else dispatch c
  | AtEscapedAddr => Raise KeyError
  | InValues addr values new_values more =>
      match more with
      | S more' =>
          Ok (InValues addr values (new_values ++ [c]) more', None)
      | O => end_of_batch addr values (new_values ++ [c])
      end
  | AfterCommand =>
      if c =? 0x55 then Ok (AtAddr, None) else Ok (Skipping, None)
  end.

(** The generator after the priming [next()]: [first_byte_after_cmd] is
    [0x00], so it waits in the skipping loop. *)
Definition read (cs : list Z) : list (option Command) * outcome pc :=
  feed send Skipping cs.
End WithLens.

End BusProtocol.

(** ** emulator.py: [Model]

    The buffers are lists of rows of [[r, g, b]] lists.  [set_value] assigns
    into an [[r, g, b]] list in place, so these lists live in a store and the
    buffers hold their addresses; the rows and the outer lists are built once
    and only read afterwards, and stay values. *)

Module Model.

Definition loc : Type := nat.

Record t : Type := mk {
  modules : Z;
  leds_per_module : Z;
  observers : list nat;
  heap : list (list Z);
  back_buffer : list (list loc);
  front_buffer : list (list loc)
}.

(** A new list object. *)
Definition alloc (h : list (list Z)) (cell : list Z) : list (list Z) * loc :=
  (h ++ [cell], length h).

(** [[[0, 0, 0] for x in range(n)]] *)
Fixpoint new_row (h : list (list Z)) (n : nat) : list (list Z) * list loc :=
  match n with
  | O => (h, [])
  | S n' =>
      let '(h1, l) := alloc h [0; 0; 0] in
      let '(h2, ls) := new_row h1 n' in
      (h2, l :: ls)
  end.

(** [[[[0, 0, 0] for x in range(n)] for y in range(k)]] *)
Fixpoint new_rows (h : list (list Z)) (k n : nat)
  : list (list Z) * list (list loc) :=
  match k with
  | O => (h, [])
  | S k' =>
      let '(h1, row) := new_row h n in
      let '(h2, rows) := new_rows h1 k' n in
      (h2, row :: rows)
  end.

(** [copy.deepcopy] of one [[r, g, b]] list: the memo returns the copy
    already made of an object met before, otherwise a new object with the
    same items (integers are not copied) is made and recorded. *)
Definition deepcopy_cell (st : list (list Z) * gmap loc loc) (l : loc)
  : (list (list Z) * gmap loc loc) * loc :=
  let '(h, memo) := st in
  match memo !! l with
  | Some l' => (st, l')
  | None =>
      let '(h', l') := alloc h (h !!! l) in
      ((h', <[l := l']> memo), l')
  end.

Fixpoint deepcopy_row (st : list (list Z) * gmap loc loc) (row : list loc)
  : (list (list Z) * gmap loc loc) * list loc :=
  match row with
  | [] => (st, [])
  | l :: row' =>
      let '(st1, l') := deepcopy_cell st l in
      let '(st2, ls) := deepcopy_row st1 row' in
      (st2, l' :: ls)
  end.

Fixpoint deepcopy_rows (st : list (list Z) * gmap loc loc)
  (rows : list (list loc)) : (list (list Z) * gmap loc loc) * list (list loc) :=
  match rows with
  | [] => (st, [])
  | row :: rows' =>
      let '(st1, row1) := deepcopy_row st row in
      let '(st2, rs) := deepcopy_rows st1 rows' in
      (st2, row1 :: rs)
  end.

(** [copy.deepcopy(buf)], with a memo of its own. *)
Definition deepcopy (h : list (list Z)) (buf : list (list loc))
  : list (list Z) * list (list loc) :=
  let '((h', _), buf') := deepcopy_rows (h, ∅) buf in (h', buf').

(** [Model.__init__] *)
Definition init (modules leds_per_module : Z) : t :=
  let '(h1, back) :=
    new_rows [] (Z.to_nat modules) (Z.to_nat leds_per_module) in
  let '(h2, front) := deepcopy h1 back in
  {| modules := modules; leds_per_module := leds_per_module;
     observers := []; heap := h2;
     back_buffer := back; front_buffer := front |}.

(** [Model.set_value]: every failing index is an [IndexError], which the
    [except] clause swallows. *)
Definition set_value (m : t) (module channel value : Z) : t :=
  match
    row ← py_getitem (back_buffer m) module;
    l ← py_getitem row (channel / 3);
    cell ← py_setitem (heap m !!! l) (channel mod 3) value;
    Ok {| modules := modules m; leds_per_module := leds_per_module m;
          observers := observers m;
          heap := <[l := cell]> (heap m);
          back_buffer := back_buffer m; front_buffer := front_buffer m |}
  with
  | Ok m' => m'
  | Raise _ => m
  end.

(** [Model.add_observer] *)
Definition add_observer (m : t) (func : nat) : t :=
  {| modules := modules m; leds_per_module := leds_per_module m;
     observers := observers m ++ [func]; heap := heap m;
     back_buffer := back_buffer m; front_buffer := front_buffer m |}.

(** [Model.strobe]; the observers are then called in order (they redraw
    the window from [front_buffer], which is outside this model). *)
Definition strobe (m : t) : t :=
  let '(h', front) := deepcopy (heap m) (back_buffer m) in
  {| modules := modules m; leds_per_module := leds_per_module m;
     observers := observers m; heap := h';
     back_buffer := back_buffer m; front_buffer := front |}.

(** What a buffer shows: the items of every [[r, g, b]] list it refers to. *)
Definition contents (h : list (list Z)) (buf : list (list loc))
  : list (list (list Z)) :=
  map (map (fun l => h !!! l)) buf.

(** The addresses a buffer refers to. *)
Definition cells (buf : list (list loc)) : list loc := concat buf.

(** Every address in the two buffers is an object of the store, and no
    object is shared between the back and the front buffer. *)
Definition wf (m : t) : Prop :=
  Forall (fun l => (l < length (heap m))%nat)
         (cells (back_buffer m) ++ cells (front_buffer m)) /\
  Forall (fun l => l ∉ cells (back_buffer m)) (cells (front_buffer m)).

End Model.

(** ** emulator.py: [Controller] *)

Module Controller.

Inductive state_t : Type := STATE_IGNORE | STATE_NORMAL | STATE_ESCAPE.

Definition ESCAPE_MARK : Z := 0x54.
Definition START_MARK : Z := 0x55.
Definition ESCAPE_ESCAPED : Z := 0x00.
Definition START_ESCAPED : Z := 0x01.

(** The local variables of [read_frames] that live across iterations. *)
Record locals : Type := mk { payload_buf : list Z; state : state_t }.

(** One iteration of [for num in byte_stream] (lines 228-254): the new
    locals and the frame yielded, if one is. *)
Definition loop_body (s : locals) (num : Z)
  : result (locals * option (list Z)) :=
  match state s with
  | STATE_IGNORE =>
      if num =? START_MARK
      then Ok (mk (payload_buf s) STATE_NORMAL, None)
      else Ok (s, None)
  | STATE_NORMAL =>
      if num =? ESCAPE_MARK
      then Ok (mk (payload_buf s) STATE_ESCAPE, None)
      else if num =? START_MARK
      then Ok (mk [] STATE_NORMAL, Some (payload_buf s))
      else Ok (mk (payload_buf s ++ [num]) STATE_NORMAL, None)
  | STATE_ESCAPE =>
      if num =? ESCAPE_ESCAPED
      then Ok (mk (payload_buf s ++ [ESCAPE_MARK]) STATE_NORMAL, None)
      else if num =? START_ESCAPED
      then Ok (mk (payload_buf s ++ [START_MARK]) STATE_NORMAL, None)
      else Raise ProtocolViolation
  end.

(** The [for] loop from the locals [s] on: the frames yielded in order,
    and the locals when [byte_stream] is exhausted (the generator returns)
    or the exception that ended it. *)
Fixpoint for_loop (s : locals) (byte_stream : list Z)
  : list (list Z) * outcome locals :=
  match byte_stream with
  | [] => ([], Running s)
  | num :: rest =>
      match loop_body s num with
      | Raise e => ([], Raised e)
      | Ok (s', y) =>
          let '(frames, o) := for_loop s' rest in
          (match y with Some frame => frame :: frames | None => frames end, o)
      end
  end.

Definition read_frames (byte_stream : list Z)
  : list (list Z) * outcome locals :=
  for_loop (mk [] STATE_IGNORE) byte_stream.

(** [for channel, value in enumerate(frame[1:]): set_value(frame[0], ...)],
    from index [channel] on. *)
Fixpoint set_values (m : Model.t) (module channel : Z) (values : list Z)
  : Model.t :=
  match values with
  | [] => m
  | value :: values' =>
      set_values (Model.set_value m module channel value)
                 module (channel + 1) values'
  end.

(** The body of the loop of [run] (lines 206-213), without the [print]. *)
Definition handle_frame (m : Model.t) (frame : list Z) : result Model.t :=
  if decide (frame = [0xfe]) then Ok (Model.strobe m)
  else
    match frame with
    | module :: values => Ok (set_values m module 0 values)
    | [] => Raise ProtocolViolation
    end.

Fixpoint handle_frames (m : Model.t) (frames : list (list Z))
  : Model.t * option exn :=
  match frames with
  | [] => (m, None)
  | frame :: frames' =>
      match handle_frame m frame with
      | Ok m' => handle_frames m' frames'
      | Raise e => (m, Some e)
      end
  end.

(** [Controller.run] on the bytes the source delivers: the model as the
    loop leaves it, and the exception that ended the thread, if any.
    [read_frames] yields the frames it found before it raises, and a frame
    that makes the body raise ends the loop before the reader is resumed,
    so the frames are handled in order before the reader's own outcome
    counts. *)
Definition run (m : Model.t) (byte_stream : list Z) : Model.t * option exn :=
  let '(frames, o) := read_frames byte_stream in
  match handle_frames m frames with
  | (m', Some e) => (m', Some e)
  | (m', None) =>
      (m', match o with Raised e => Some e | Running _ => None end)
  end.

End Controller.

(** ** The escaped form of a frame body

    The wire form that [BusProtocol.UNESCAPE] and the [STATE_ESCAPE] branch of
    [read_frames] undo: a value among [UNESCAPE.values()] travels as the pair
    [ESCAPE_BYTE], [value - ESCAPE_BYTE] (the pair that lines 165-166 of
    llvp.py compute), any other value as itself.  The claims about "valid
    escaped" bodies are stated on the image of [escape]. *)

Definition escape_byte (value : Z) : list Z :=
  if in_UNESCAPE_values value
  then [ESCAPE_BYTE; value - ESCAPE_BYTE]
  else [value].

Definition escape (body : list Z) : list Z := flat_map escape_byte body.

(** The same set of byte sequences, described on the wire: every
    [ESCAPE_BYTE] is followed by [0x00] or [0x01], and [0x55] does not occur. *)
Inductive valid_escaped : list Z -> Prop :=
| valid_nil : valid_escaped []
| valid_plain b raw :
    b <> ESCAPE_BYTE -> b <> START_OF_CMD_MARKER ->
    valid_escaped raw -> valid_escaped (b :: raw)
| valid_pair c raw :
    c = 0x00 \/ c = 0x01 ->
    valid_escaped raw -> valid_escaped (ESCAPE_BYTE :: c :: raw).

(** ** The state of a deep copy in progress

    [copying h0 st]: the store of [st] is the store [h0] the copy started
    from, followed by the objects made so far, and every entry of the memo
    maps to one of these new objects, which holds the items that the object
    it was copied from holds in [h0]. *)
Definition copying (h0 : list (list Z))
  (st : list (list Z) * gmap Model.loc Model.loc) : Prop :=
  (exists ext, fst st = h0 ++ ext) /\
  forall l l', snd st !! l = Some l' ->
    (l < length h0)%nat /\
    (length h0 <= l' < length (fst st))%nat /\
    fst st !!! l' = h0 !!! l.

(** ** llvp.py: [FilelikeController]

    The controller is modelled by its file-like object, and the file-like
    object by the bytes passed to [sendall] so far.  A method returns the
    bytes sent after the call, or the exception raised by [to_str] (nothing
    has been sent by the call then).  [rgb] and [rgba] are a triple and a
    quadruple of integers; an absent [a] argument is [None]. *)

Module FilelikeController.

Definition _send (f : list Z) (command : Command) : result (list Z) :=
  s ← to_str command;
  Ok (f ++ s).

(** [FilelikeController.__init__] *)
Definition init (f : list Z) (token : list Z) : result (list Z) :=
  _send f (new_AuthenticateCommand token).

Definition set_rgb (f : list Z) (led : Z) (rgb : Z * Z * Z) (a : option Z)
  : result (list Z) :=
  let '(r, g, b) := rgb in
  _send f (SetLedCommand led (r, g, b, default 255 a)).

Definition set_rgb_hi (f : list Z) (led : Z) (rgb : Z * Z * Z) (a : option Z)
  : result (list Z) :=
  let '(r, g, b) := rgb in
  _send f (HighResSetLedCommand led (r, g, b, default 65535 a)).

Definition set_rgba (f : list Z) (led : Z) (rgba : Z * Z * Z * Z)
  : result (list Z) :=
  _send f (SetLedCommand led rgba).

Definition set_rgba_hi (f : list Z) (led : Z) (rgba : Z * Z * Z * Z)
  : result (list Z) :=
  _send f (HighResSetLedCommand led rgba).

Definition set_rgb_a (f : list Z) (led : Z) (rgb : Z * Z * Z) (a : option Z)
  : result (list Z) :=
  set_rgb f led rgb (Some (default 255 a)).

Definition strobe (f : list Z) : result (list Z) :=
  _send f StrobeCommand.

(** A method call with its arguments, and a sequence of calls on one
    controller: the first exception ends the sequence. *)
Inductive call : Type :=
| Set_rgb (led : Z) (rgb : Z * Z * Z) (a : option Z)
| Set_rgb_hi (led : Z) (rgb : Z * Z * Z) (a : option Z)
| Set_rgba (led : Z) (rgba : Z * Z * Z * Z)
| Set_rgba_hi (led : Z) (rgba : Z * Z * Z * Z)
| Set_rgb_a (led : Z) (rgb : Z * Z * Z) (a : option Z)
| Strobe.

Definition perform (f : list Z) (c : call) : result (list Z) :=
  match c with
  | Set_rgb led rgb a => set_rgb f led rgb a
  | Set_rgb_hi led rgb a => set_rgb_hi f led rgb a
  | Set_rgba led rgba => set_rgba f led rgba
  | Set_rgba_hi led rgba => set_rgba_hi f led rgba
  | Set_rgb_a led rgb a => set_rgb_a f led rgb a
  | Strobe => strobe f
  end.

Fixpoint perform_all (f : list Z) (cs : list call) : result (list Z) :=
  match cs with
  | [] => Ok f
  | c :: cs' => f' ← perform f c; perform_all f' cs'
  end.

(** The command a call sends. *)
Definition command_of (c : call) : Command :=
  match c with
  | Set_rgb led (r, g, b) a => SetLedCommand led (r, g, b, default 255 a)
  | Set_rgb_hi led (r, g, b) a =>
      HighResSetLedCommand led (r, g, b, default 65535 a)
  | Set_rgba led rgba => SetLedCommand led rgba
  | Set_rgba_hi led rgba => HighResSetLedCommand led rgba
  | Set_rgb_a led (r, g, b) a => SetLedCommand led (r, g, b, default 255 a)
  | Strobe => StrobeCommand
  end.

End FilelikeController.

(** ** Sequences of commands and byte ranges *)

(** The encodings of a sequence of commands, one after the other. *)
Fixpoint encode_all (cmds : list Command) : result (list Z) :=
  match cmds with
  | [] => Ok []
  | c :: cmds' =>
      s ← to_str c;
      t ← encode_all cmds';
      Ok (s ++ t)
  end.


Definition is_byte (z : Z) : Prop := 0 <= z < 256.
Definition is_word (z : Z) : Prop := 0 <= z < 65536.

(** The bytes [NetProtocol.read] has consumed since the last command it
    yielded. *)
Definition net_pending (s : NetProtocol.pc) : list Z :=
  match s with
  | NetProtocol.AtOpcode => []
  | NetProtocol.InSetLed got => 0x01 :: got
  | NetProtocol.InAuthenticate got => 0x02 :: got
  end.

(** The commands that [NetProtocol.read] can yield: a strobe, or a
    [SetLedCommand] with a 16-bit LED number and 8-bit channels. *)
Definition net_decodable (c : Command) : Prop :=
  match c with
  | StrobeCommand => True
  | SetLedCommand led (c0, c1, c2, c3) =>
      is_word led /\ is_byte c0 /\ is_byte c1 /\ is_byte c2 /\ is_byte c3
  | _ => False
  end.

(** ** Frames of the bus protocol on the wire *)

(** A bus command as [BusProtocol.read] expects it on the wire: the start
    marker, the address as it is, and the escaped channel values. *)
Definition bus_wire (c : Command) : list Z :=
  match c with
  | BusStrobeCommand => [START_OF_CMD_MARKER; STROBE_PADDR]
  | BusSetChannelsCommand mod_id channels =>
      [START_OF_CMD_MARKER; mod_id] ++ escape channels
  | _ => []
  end.

(** The bus commands that fit a configuration: a strobe, or channel values
    for a module whose address is none of the reserved bytes and whose
    configured length is the number of values. *)
Definition bus_fits (module_lens : list nat) (c : Command) : Prop :=
  match c with
  | BusStrobeCommand => True
  | BusSetChannelsCommand mod_id channels =>
      mod_id <> ESCAPE_BYTE /\ mod_id <> START_OF_CMD_MARKER /\
      mod_id <> STROBE_PADDR /\
      py_getitem module_lens mod_id = Ok (length channels)
  | _ => False
  end.

(** A stream of bus commands on the wire, each preceded by bytes that
    belong to no frame. *)
Definition bus_stream (items : list (list Z * Command)) : list Z :=
  concat (map (fun item => fst item ++ bus_wire (snd item)) items).

(** While [BusProtocol.read] collects the values of a command, the values
    that are not escape bytes, the bytes of the batch in progress and the
    bytes the batch still wants add up to the configured length of the
    module. *)
Definition bus_consistent (module_lens : list nat) (s : BusProtocol.pc)
  : Prop :=
  match s with
  | BusProtocol.InValues addr values new_values more =>
      addr <> ESCAPE_BYTE /\ addr <> START_OF_CMD_MARKER /\
      addr <> STROBE_PADDR /\
      py_getitem module_lens addr
      = Ok (length (filter (fun val => val <> ESCAPE_BYTE) values)
            + length new_values + S more)%nat
  | _ => True
  end.

(** The frame the emulator reads for a bus command. *)
Definition frame_of (c : Command) : list Z :=
  match c with
  | BusStrobeCommand => [STROBE_PADDR]
  | BusSetChannelsCommand mod_id channels => mod_id :: channels
  | _ => []
  end.

(** The channels of each module that a buffer shows, LED after LED. *)
Definition channels (h : list (list Z)) (buf : list (list Model.loc))
  : list (list Z) :=
  map (fun row => concat row) (Model.contents h buf).

(** A model as [Model.__init__] builds it and the methods keep it: the
    buffers refer to objects of the store and share none, every LED of the
    back buffer is an object of its own, and every LED has three
    components. *)
Definition well_built (m : Model.t) : Prop :=
  Model.wf m /\
  NoDup (Model.cells (Model.back_buffer m)) /\
  Forall (fun l => length (Model.heap m !!! l) = 3%nat)
         (Model.cells (Model.back_buffer m)).

(** * Properties *)

(** ** The code on small inputs *)

Example bus_strobe_example :
  to_str BusStrobeCommand = Ok [0x55; 0xfe] /\
  BusProtocol.read [] [0x55; 0xfe]
  = ([None; Some BusStrobeCommand], Running BusProtocol.AfterCommand).
Proof. split; reflexivity. Qed.

Example bus_escaped_address_example :
  BusProtocol.read [3%nat] [0x55; 0x54; 0x00]
  = ([None; None], Raised KeyError).
Proof. reflexivity. Qed.

(** A payload whose last byte is the escape byte, for a module of two
    channels: the second batch is the one extension byte. *)
Example bus_escape_at_the_boundary :
  BusProtocol.read [2%nat] ([0x55; 0x00] ++ escape [0x07; 0x54] ++ [0x55; 0xfe])
  = ([None; None; None; None; Some (BusSetChannelsCommand 0 [0x07; 0x54]);
      None; Some BusStrobeCommand],
     Running BusProtocol.AfterCommand).
Proof. reflexivity. Qed.

(** Two escape bytes in a row are read as one escaped value. *)
Example bus_escape_after_escape :
  BusProtocol.read [1%nat] [0x55; 0x00; 0x54; 0x54; 0x00]
  = ([None; None; None; None; Some (BusSetChannelsCommand 0 [0x54])],
     Running BusProtocol.AfterCommand).
Proof. reflexivity. Qed.

Example read_frames_example :
  Controller.read_frames [0x09; 0x55; 0x01; 0x54; 0x01; 0x55; 0xfe; 0x55; 0x07]
  = ([[0x01; 0x55]; [0xfe]],
     Running (Controller.mk [0x07] Controller.STATE_NORMAL)).
Proof. reflexivity. Qed.

Example run_example :
  let m := fst (Controller.run (Model.init 2 2)
                  [0x55; 0x01; 0x07; 0x08; 0x09; 0x0a; 0x55; 0xfe; 0x55]) in
  Model.contents (Model.heap m) (Model.back_buffer m)
    = [[[0; 0; 0]; [0; 0; 0]]; [[7; 8; 9]; [10; 0; 0]]] /\
  Model.contents (Model.heap m) (Model.front_buffer m)
    = [[[0; 0; 0]; [0; 0; 0]]; [[7; 8; 9]; [10; 0; 0]]].
Proof. split; reflexivity. Qed.

Example set_value_out_of_range :
  Model.set_value (Model.init 2 2) 2 0 9 = Model.init 2 2 /\
  Model.set_value (Model.init 2 2) 0 6 9 = Model.init 2 2.
Proof. split; reflexivity. Qed.

(** ** Driving a generator *)

Section DriveFacts.
Context {St Out : Type}.
Variable send : St -> Z -> result (St * option Out).

Lemma feed_app (s : St) (cs1 cs2 : list Z) :
  feed send s (cs1 ++ cs2) =
  match feed send s cs1 with
  | (ys, Running s') =>
      let '(ys', o) := feed send s' cs2 in (ys ++ ys', o)
  | (ys, Raised e) => (ys, Raised e)
  end.
Proof.
  revert s. induction cs1 as [|c cs1 IH]; intros s; simpl.
  - destruct (feed send s cs2); reflexivity.
  - destruct (send s c) as [[s' y]|e]; [|reflexivity].
    rewrite IH. destruct (feed send s' cs1) as [ys [s''|e]]; [|reflexivity].
    destruct (feed send s'' cs2); reflexivity.
Qed.

(** An exception is final: whatever is sent afterwards changes nothing. *)
Lemma feed_raised (s : St) (cs1 cs2 : list Z) ys e :
  feed send s cs1 = (ys, Raised e) ->
  feed send s (cs1 ++ cs2) = (ys, Raised e).
Proof. intros H. rewrite feed_app, H. reflexivity. Qed.

Lemma feed_running (s s' : St) (cs1 cs2 : list Z) ys :
  feed send s cs1 = (ys, Running s') ->
  feed send s (cs1 ++ cs2) =
  (ys ++ fst (feed send s' cs2), snd (feed send s' cs2)).
Proof.
  intros H. rewrite feed_app, H. destruct (feed send s' cs2); reflexivity.
Qed.

(** Values that are only consumed: each [send] suspends again without
    yielding a command. *)
Lemma feed_silent (s s' : St) (cs : list Z) c :
  feed send s cs = (repeat None (length cs), Running s) ->
  send s c = Ok (s', None) ->
  feed send s (cs ++ [c]) = (repeat None (length (cs ++ [c])), Running s').
Proof.
  intros H Hc. rewrite (feed_running _ _ _ _ _ H). simpl. rewrite Hc. simpl.
  rewrite length_app. simpl. rewrite repeat_app. reflexivity.
Qed.
End DriveFacts.

(** ** Bit-level facts used by the encoders *)

Lemma hi_lo_join (x : Z) :
  Z.lor (Z.shiftl (Z.shiftr x 8) 8) (Z.land x 255) = x.
Proof.
  apply Z.bits_inj'. intros n Hn.
  rewrite Z.lor_spec.
  change 255 with (Z.ones 8).
  destruct (Z.ltb_spec n 8) as [Hlt|Hge].
  - rewrite Z.shiftl_spec_low by lia.
    rewrite Z.land_spec, Z.ones_spec_low by lia.
    rewrite andb_true_r. reflexivity.
  - rewrite Z.shiftl_spec by lia.
    rewrite Z.shiftr_spec by lia.
    rewrite Z.land_spec, Z.ones_spec_high by lia.
    rewrite andb_false_r, orb_false_r. f_equal. lia.
Qed.

Lemma chr_byte (z : Z) : 0 <= z < 256 -> chr z = Ok z.
Proof.
  intros H. unfold chr.
  destruct (Z.leb_spec 0 z); [|lia]. destruct (Z.ltb_spec z 256); [|lia].
  reflexivity.
Qed.

Lemma chr_hi (x : Z) : 0 <= x < 65536 -> chr (Z.shiftr x 8) = Ok (Z.shiftr x 8).
Proof.
  intros H. apply chr_byte. rewrite Z.shiftr_div_pow2 by lia.
  change (2 ^ 8) with 256. split.
  - apply Z.div_pos; lia.
  - apply Z.div_lt_upper_bound; lia.
Qed.

Lemma chr_lo (x : Z) : chr (Z.land x 255) = Ok (Z.land x 255).
Proof.
  apply chr_byte. change 255 with (Z.ones 8).
  rewrite Z.land_ones by lia. change (2 ^ 8) with 256.
  apply Z.mod_pos_bound. lia.
Qed.

(** ** The net-level commands that do survive a round trip *)

Lemma Strobe_roundtrip :
  exists bytes, to_str StrobeCommand = Ok bytes /\
    NetProtocol.read bytes = ([Some StrobeCommand], Running NetProtocol.AtOpcode).
Proof. exists [0xff]. split; reflexivity. Qed.

Lemma SetLed_roundtrip (led c0 c1 c2 c3 : Z) :
  0 <= led < 65536 ->
  0 <= c0 < 256 -> 0 <= c1 < 256 -> 0 <= c2 < 256 -> 0 <= c3 < 256 ->
  exists bytes, to_str (SetLedCommand led (c0, c1, c2, c3)) = Ok bytes /\
    NetProtocol.read bytes =
      (repeat None 6 ++ [Some (SetLedCommand led (c0, c1, c2, c3))],
       Running NetProtocol.AtOpcode).
Proof.
  intros Hled H0 H1 H2 H3.
  exists [0x01; Z.shiftr led 8; Z.land led 255; c0; c1; c2; c3]. split.
  - simpl. rewrite chr_hi, chr_lo by assumption. simpl.
    rewrite !chr_byte by assumption. reflexivity.
  - unfold NetProtocol.read. simpl. rewrite hi_lo_join. reflexivity.
Qed.

(** The encoder of [BusSetChannelsCommand] never writes a byte of the frame:
    whenever it returns, it returns the start marker alone. *)
Lemma to_str_loop_res (res values : list Z) (out : list Z) :
  to_str_loop res values = Ok out -> out = res.
Proof.
  induction values as [|v vs IH]; simpl.
  - congruence.
  - destruct (in_UNESCAPE_values v); [discriminate | exact IH].
Qed.

Lemma to_str_loop_reserved (res values : list Z) :
  existsb in_UNESCAPE_values values = true ->
  to_str_loop res values = Raise AttributeError.
Proof.
  induction values as [|v vs IH]; simpl; [discriminate|].
  destruct (in_UNESCAPE_values v); [reflexivity | exact IH].
Qed.

Lemma BusSetChannels_written (mod_id : Z) (channels out : list Z) :
  to_str (BusSetChannelsCommand mod_id channels) = Ok out ->
  out = [START_OF_CMD_MARKER].
Proof. apply to_str_loop_res. Qed.

(** No encoding of a [HighResSetLedCommand] is accepted by
    [NetProtocol.read]. *)
Lemma HighRes_refused (led : Z) (color : Z * Z * Z * Z) (bytes : list Z) :
  to_str (HighResSetLedCommand led color) = Ok bytes ->
  NetProtocol.read bytes = ([], Raised ProtocolError).
Proof.
  destruct color as [[[c0 c1] c2] c3]. simpl.
  repeat match goal with
         | |- context [chr ?z] => destruct (chr z); simpl; [|discriminate]
         end.
  intros [= <-]. reflexivity.
Qed.

(** ** C1: round trip of the commands *)

(** C1.  The claim is that decoding the bytes produced by encoding any
    command gives the command back.  On the code this fails for three of the
    five kinds.  [BusSetChannelsCommand 0 [1; 2; 3]] is encoded as the start
    marker alone, from which [BusProtocol.read] (module 0 having three
    channels) yields no command; the same command with a reserved channel
    value is not encoded at all.  The encoding of a [HighResSetLedCommand]
    is refused by [NetProtocol.read] at its opcode, and that of an
    [AuthenticateCommand] makes it raise on the sixteenth token byte. *)
Theorem C1_roundtrip_broken_on_code :
  to_str (BusSetChannelsCommand 0 [1; 2; 3]) = Ok [0x55] /\
  BusProtocol.read [3%nat] [0x55] = ([None], Running BusProtocol.AtAddr) /\
  to_str (BusSetChannelsCommand 0 [1; 0x54; 3]) = Raise AttributeError /\
  to_str (HighResSetLedCommand 1 (1, 2, 3, 4))
    = Ok [0x03; 0; 1; 0; 1; 0; 2; 0; 3; 0; 4] /\
  NetProtocol.read [0x03; 0; 1; 0; 1; 0; 2; 0; 3; 0; 4]
    = ([], Raised ProtocolError) /\
  to_str (new_AuthenticateCommand [7; 7; 7])
    = Ok (0x02 :: [7; 7; 7] ++ repeat 0 13) /\
  NetProtocol.read (0x02 :: [7; 7; 7] ++ repeat 0 13)
    = (repeat None 16, Raised AttributeError).
Proof. repeat split; reflexivity. Qed.

(** ** C3: the frame encoder *)

(** C3.  The claim is that the encoder writes the start marker and then
    every byte of [address ++ payload], reserved bytes as escape pairs.  On
    the code, [BusSetChannelsCommand.to_str] writes the start marker and
    nothing else for the frame [0; 1; 2; 3] (all four bytes are omitted), and
    raises [AttributeError] instead of writing the pair for the reserved
    byte of the frame [0; 0x54]. *)
Theorem C3_encoder_omits_frame_bytes :
  to_str (BusSetChannelsCommand 0 [1; 2; 3]) = Ok [START_OF_CMD_MARKER] /\
  to_str (BusSetChannelsCommand 0 [0x54]) = Raise AttributeError /\
  to_str (BusSetChannelsCommand 0 [0x55]) = Raise AttributeError.
Proof. repeat split; reflexivity. Qed.

(** ** C5: the [SetLed] example *)

(** The claim of C5 as stated fails: the encoding has no leading [0x55], and
    [NetProtocol.read] refuses the eight-byte sequence at its first byte. *)
Lemma C5_counterexample :
  to_str (SetLedCommand 1 (255, 0, 0, 255))
    <> Ok [0x55; 0x01; 0x00; 0x01; 0xFF; 0x00; 0x00; 0xFF] /\
  NetProtocol.read [0x55; 0x01; 0x00; 0x01; 0xFF; 0x00; 0x00; 0xFF]
    = ([], Raised ProtocolError).
Proof. split; [discriminate | reflexivity]. Qed.

(** C5, amended.  Encoding [SetLed{led=1, r=255, g=0, b=0, a=255}] produces
    exactly the seven bytes [0x01, 0x00, 0x01, 0xFF, 0x00, 0x00, 0xFF] (the
    net-level commands carry no start marker), and decoding these seven
    bytes yields exactly that command, on the last byte. *)
Theorem C5_SetLed_example :
  to_str (SetLedCommand 1 (255, 0, 0, 255))
    = Ok [0x01; 0x00; 0x01; 0xFF; 0x00; 0x00; 0xFF] /\
  NetProtocol.read [0x01; 0x00; 0x01; 0xFF; 0x00; 0x00; 0xFF]
    = ([None; None; None; None; None; None;
        Some (SetLedCommand 1 (255, 0, 0, 255))],
       Running NetProtocol.AtOpcode).
Proof. split; reflexivity. Qed.

(** ** C7: the token of [Authenticate] *)

(** The claim of C7 as stated fails: a token of seventeen bytes is not
    rejected, and the encoded command carries all seventeen of them. *)
Lemma C7_counterexample :
  to_str (new_AuthenticateCommand (repeat 1 17)) = Ok (0x02 :: repeat 1 17) /\
  length (repeat 1 17) <> 16%nat.
Proof. split; [reflexivity | discriminate]. Qed.

(** C7, amended.  For every caller-supplied token the encoded Authenticate
    command is the opcode [0x02] followed by the token zero-padded on the
    right to sixteen bytes: a token shorter than sixteen bytes gives a field
    of exactly sixteen bytes, a token of sixteen bytes or more is carried
    unchanged, so the field has [max 16 (len token)] bytes, and no token is
    rejected. *)
Theorem C7_token_field (token : list Z) :
  to_str (new_AuthenticateCommand token)
    = Ok (0x02 :: token ++ repeat 0x00 (16 - length token)%nat) /\
  length (token ++ repeat 0x00 (16 - length token)%nat)
    = Nat.max 16 (length token).
Proof.
  split; [reflexivity|].
  rewrite length_app, repeat_length. lia.
Qed.

(** ** The frame reader of the emulator *)

Section ReadFrames.
Import Controller.

Lemma for_loop_app (s : locals) (bs1 bs2 : list Z) :
  for_loop s (bs1 ++ bs2) =
  match for_loop s bs1 with
  | (frames, Running s') =>
      let '(frames', o) := for_loop s' bs2 in (frames ++ frames', o)
  | (frames, Raised e) => (frames, Raised e)
  end.
Proof.
  revert s. induction bs1 as [|b bs1 IH]; intros s; simpl.
  - destruct (for_loop s bs2); reflexivity.
  - destruct (loop_body s b) as [[s' y]|e]; [|reflexivity].
    rewrite IH. destruct (for_loop s' bs1) as [fs [s''|e]].
    + destruct (for_loop s'' bs2) as [fs' o]. destruct y; reflexivity.
    + reflexivity.
Qed.

Lemma for_loop_raised (s : locals) (bs1 bs2 : list Z) frames e :
  for_loop s bs1 = (frames, Raised e) ->
  for_loop s (bs1 ++ bs2) = (frames, Raised e).
Proof. intros H. rewrite for_loop_app, H. reflexivity. Qed.

Lemma for_loop_running (s s' : locals) (bs1 bs2 : list Z) frames :
  for_loop s bs1 = (frames, Running s') ->
  for_loop s (bs1 ++ bs2) =
  (frames ++ fst (for_loop s' bs2), snd (for_loop s' bs2)).
Proof.
  intros H. rewrite for_loop_app, H. destruct (for_loop s' bs2); reflexivity.
Qed.

(** Before the first start marker everything is skipped. *)
Lemma for_loop_ignore (buf : list Z) (A : list Z) :
  ~ In START_MARK A ->
  for_loop (mk buf STATE_IGNORE) A = ([], Running (mk buf STATE_IGNORE)).
Proof.
  induction A as [|a A IH]; intros HA; simpl; [reflexivity|].
  unfold loop_body; simpl.
  destruct (Z.eqb_spec a START_MARK) as [->|Hne].
  - exfalso. apply HA. left. reflexivity.
  - rewrite IH; [reflexivity|]. intros Hin. apply HA. right. exact Hin.
Qed.

(** Inside a frame, an escaped body is appended to the buffer, unescaped,
    and yields nothing. *)
Lemma for_loop_escape (buf body : list Z) :
  for_loop (mk buf STATE_NORMAL) (escape body)
  = ([], Running (mk (buf ++ body) STATE_NORMAL)).
Proof.
  revert buf. induction body as [|b body IH]; intros buf.
  - simpl. rewrite app_nil_r. reflexivity.
  - change (escape (b :: body)) with (escape_byte b ++ escape body).
    replace (buf ++ b :: body) with ((buf ++ [b]) ++ body)
      by (rewrite <- app_assoc; reflexivity).
    assert (Hb : for_loop (mk buf STATE_NORMAL) (escape_byte b)
                 = ([], Running (mk (buf ++ [b]) STATE_NORMAL))).
    { unfold escape_byte, in_UNESCAPE_values.
      destruct (Z.eqb_spec b 0x54) as [->|H54]; [reflexivity|].
      destruct (Z.eqb_spec b 0x55) as [->|H55]; [reflexivity|].
      simpl. unfold loop_body; simpl.
      destruct (Z.eqb_spec b ESCAPE_MARK); [contradiction|].
      destruct (Z.eqb_spec b START_MARK); [contradiction|].
      reflexivity. }
    rewrite (for_loop_running _ _ _ _ _ Hb), IH. reflexivity.
Qed.

(** A start marker inside a frame yields the buffer, whatever it holds. *)
Lemma start_in_frame (buf : list Z) :
  loop_body (mk buf STATE_NORMAL) START_MARK
  = Ok (mk [] STATE_NORMAL, Some buf).
Proof. reflexivity. Qed.

(** One whole frame, start marker to start marker. *)
Lemma for_loop_frame (buf body : list Z) :
  for_loop (mk buf STATE_NORMAL) (escape body ++ [START_MARK])
  = ([buf ++ body], Running (mk [] STATE_NORMAL)).
Proof.
  rewrite (for_loop_running _ _ _ _ _ (for_loop_escape buf body)).
  reflexivity.
Qed.

(** The body of [run] raises nothing but [ProtocolViolation], and does so
    exactly on the empty frame. *)
Lemma handle_frame_raise (m : Model.t) (frame : list Z) (e : exn) :
  handle_frame m frame = Raise e -> frame = [] /\ e = ProtocolViolation.
Proof.
  unfold handle_frame. destruct (decide (frame = [254])); [discriminate|].
  destruct frame; [|discriminate]. intros H. split; congruence.
Qed.

Lemma handle_frames_empty_frame (m : Model.t)
  (frames later : list (list Z)) :
  snd (handle_frames m (frames ++ [] :: later)) = Some ProtocolViolation.
Proof.
  revert m. induction frames as [|f frames IH]; intros m; simpl.
  - reflexivity.
  - destruct (handle_frame m f) as [m'|e] eqn:Hf.
    + apply IH.
    + apply handle_frame_raise in Hf as [_ ->]. reflexivity.
Qed.

(** While the reader is still seeking, its buffer is the initial empty
    one: no branch returns to [STATE_IGNORE]. *)
Lemma loop_body_ignore (s s' : locals) (num : Z) (y : option (list Z)) :
  loop_body s num = Ok (s', y) ->
  state s' = STATE_IGNORE ->
  state s = STATE_IGNORE /\ payload_buf s' = payload_buf s.
Proof.
  destruct s as [buf st]. unfold loop_body; simpl. destruct st.
  - destruct (num =? START_MARK); intros [= <- <-]; simpl;
      [discriminate | auto].
  - destruct (num =? ESCAPE_MARK); [|destruct (num =? START_MARK)];
      intros [= <- <-]; simpl; discriminate.
  - destruct (num =? ESCAPE_ESCAPED); [|destruct (num =? START_ESCAPED)];
      [| |discriminate]; intros [= <- <-]; simpl; discriminate.
Qed.

Lemma for_loop_ignore_inv (bs : list Z) (s s' : locals) frames :
  for_loop s bs = (frames, Running s') ->
  state s' = STATE_IGNORE ->
  state s = STATE_IGNORE /\ payload_buf s' = payload_buf s.
Proof.
  revert s frames. induction bs as [|b bs IH]; intros s frames; simpl.
  - intros [= _ <-]. auto.
  - destruct (loop_body s b) as [[s1 y]|e] eqn:Hb; [|discriminate].
    destruct (for_loop s1 bs) as [fs o] eqn:Hrest.
    intros [= _ ->] Hst.
    destruct (IH _ _ Hrest Hst) as [Hst1 Hbuf1].
    destruct (loop_body_ignore _ _ _ _ Hb Hst1) as [Hst0 Hbuf0].
    split; congruence.
Qed.

Lemma ignore_buffer_empty (bs : list Z) frames (buf : list Z) st :
  read_frames bs = (frames, Running (mk buf st)) ->
  st = STATE_IGNORE -> buf = [].
Proof.
  intros H ->. apply for_loop_ignore_inv in H as [_ H]; [exact H|reflexivity].
Qed.
End ReadFrames.

(** ** C2: wire-format errors *)

(** The claim of C2 as stated fails.  In the first stream an invalid escape
    is followed by the well-formed frame [0x01] between two start markers;
    in the second (module 0 having one channel) a start marker inside the
    raw run is followed by the well-formed frame [0x55, 0x00, 0x07].  Each
    of the two frames is decoded when it comes alone, and neither is when it
    follows the error: the exception has ended the generator. *)
Lemma C2_counterexample :
  Controller.read_frames [0x55; 0x01; 0x55]
    = ([[0x01]], Running (Controller.mk [] Controller.STATE_NORMAL)) /\
  Controller.read_frames ([0x55; 0x54; 0x02] ++ [0x55; 0x01; 0x55])
    = ([], Raised ProtocolViolation) /\
  BusProtocol.read [1%nat] [0x55; 0x00; 0x07]
    = ([None; None; Some (BusSetChannelsCommand 0 [7])],
       Running BusProtocol.AfterCommand) /\
  BusProtocol.read [1%nat] ([0x55; 0x00; 0x55] ++ [0x55; 0x00; 0x07])
    = ([None; None], Raised UnexpectedSyncError).
Proof. repeat split; reflexivity. Qed.

(** C2, amended.  A wire-format error ends the decode session.  In the
    delimiter-terminated decoder a byte other than [0x00] and [0x01] after
    the escape mark raises [ProtocolViolation]; in the length-aware decoder
    a start marker in a batch of raw bytes raises [UnexpectedSyncError].
    Once a decoder has raised on a stream, it yields the same frames and
    raises the same exception on every continuation of that stream: the
    frames decoded before the error stand, nothing is resynchronized and no
    later frame is decoded. *)
Theorem C2_error_ends_session
  (lens : list nat) (bs1 bs2 cs1 cs2 : list Z)
  (frames : list (list Z)) (ys : list (option Command)) :
  Controller.read_frames bs1 = (frames, Raised ProtocolViolation) ->
  BusProtocol.read lens cs1 = (ys, Raised UnexpectedSyncError) ->
  Controller.read_frames (bs1 ++ bs2) = (frames, Raised ProtocolViolation) /\
  BusProtocol.read lens (cs1 ++ cs2) = (ys, Raised UnexpectedSyncError) /\
  (forall buf num, num <> 0x00 -> num <> 0x01 ->
     Controller.loop_body (Controller.mk buf Controller.STATE_ESCAPE) num
     = Raise ProtocolViolation) /\
  (forall addr values new_values, In START_OF_CMD_MARKER new_values ->
     BusProtocol.end_of_batch addr values new_values
     = Raise UnexpectedSyncError).
Proof.
  intros Hb Hc. repeat split.
  - apply for_loop_raised. exact Hb.
  - apply feed_raised. exact Hc.
  - intros buf num H0 H1. unfold Controller.loop_body; simpl.
    destruct (Z.eqb_spec num Controller.ESCAPE_ESCAPED); [contradiction|].
    destruct (Z.eqb_spec num Controller.START_ESCAPED); [contradiction|].
    reflexivity.
  - intros addr values new_values Hin. unfold BusProtocol.end_of_batch.
    destruct (decide (START_OF_CMD_MARKER ∈ new_values)) as [|Hn];
      [reflexivity|].
    exfalso. apply Hn. apply list_elem_of_In. exact Hin.
Qed.

Lemma C2_error_ends_session_witness :
  Controller.read_frames ([0x55; 0x54; 0x02] ++ [0x55; 0x01; 0x55])
    = ([], Raised ProtocolViolation) /\
  BusProtocol.read [1%nat] ([0x55; 0x00; 0x55] ++ [0x55; 0x00; 0x07])
    = ([None; None], Raised UnexpectedSyncError).
Proof.
  destruct (C2_error_ends_session [1%nat]
              [0x55; 0x54; 0x02] [0x55; 0x01; 0x55]
              [0x55; 0x00; 0x55] [0x55; 0x00; 0x07]
              [] [None; None]) as (H1 & H2 & _).
  - reflexivity.
  - reflexivity.
  - split; [exact H1 | exact H2].
Defined.

(** ** C4: resynchronization of the delimiter-terminated decoder *)

(** The claim of C4 as stated fails: with no garbage and the bodies [0x01]
    and [0x02], only the first frame is emitted; the second is still in the
    buffer when the stream ends. *)
Lemma C4_counterexample :
  Controller.read_frames ([] ++ [0x55] ++ escape [0x01] ++ [0x55] ++ escape [0x02])
    = ([[0x01]], Running (Controller.mk [0x02] Controller.STATE_NORMAL)) /\
  fst (Controller.read_frames
         ([] ++ [0x55] ++ escape [0x01] ++ [0x55] ++ escape [0x02]))
    <> [[0x01]; [0x02]].
Proof. split; [reflexivity | discriminate]. Qed.

(** C4, amended.  For every byte sequence [A, 0x55, F1, 0x55, F2] where [A]
    contains no [0x55] and [F1], [F2] are the escaped forms of the bodies
    [P1], [P2], the delimiter-terminated decoder emits exactly the one frame
    [P1] and nothing for [A]; [P2] is held, unescaped, as the pending
    buffer.  It is emitted as the second frame exactly when a further start
    marker follows. *)
Theorem C4_resync_emits_closed_frames (A P1 P2 : list Z) :
  ~ In Controller.START_MARK A ->
  Controller.read_frames
    (A ++ [0x55] ++ escape P1 ++ [0x55] ++ escape P2)
    = ([P1], Running (Controller.mk P2 Controller.STATE_NORMAL)) /\
  Controller.read_frames
    (A ++ [0x55] ++ escape P1 ++ [0x55] ++ escape P2 ++ [0x55])
    = ([P1; P2], Running (Controller.mk [] Controller.STATE_NORMAL)).
Proof.
  intros HA. unfold Controller.read_frames.
  pose proof (for_loop_ignore [] A HA) as H0.
  assert (H1 : Controller.for_loop (Controller.mk [] Controller.STATE_IGNORE)
                 (A ++ [0x55])
               = ([], Running (Controller.mk [] Controller.STATE_NORMAL))).
  { rewrite (for_loop_running _ _ _ _ _ H0). reflexivity. }
  assert (H2 : Controller.for_loop (Controller.mk [] Controller.STATE_IGNORE)
                 ((A ++ [0x55]) ++ escape P1 ++ [0x55])
               = ([P1], Running (Controller.mk [] Controller.STATE_NORMAL))).
  { rewrite (for_loop_running _ _ _ _ _ H1).
    change [0x55] with [Controller.START_MARK].
    rewrite for_loop_frame. reflexivity. }
  split.
  - replace (A ++ [0x55] ++ escape P1 ++ [0x55] ++ escape P2)
      with (((A ++ [0x55]) ++ escape P1 ++ [0x55]) ++ escape P2)
      by (rewrite <- !app_assoc; reflexivity).
    rewrite (for_loop_running _ _ _ _ _ H2), for_loop_escape. reflexivity.
  - replace (A ++ [0x55] ++ escape P1 ++ [0x55] ++ escape P2 ++ [0x55])
      with (((A ++ [0x55]) ++ escape P1 ++ [0x55]) ++ (escape P2 ++ [0x55]))
      by (rewrite <- !app_assoc; reflexivity).
    rewrite (for_loop_running _ _ _ _ _ H2).
    change [0x55] with [Controller.START_MARK].
    rewrite for_loop_frame. reflexivity.
Qed.

Lemma C4_resync_emits_closed_frames_witness :
  Controller.read_frames
    ([0x09; 0x54] ++ [0x55] ++ escape [0x01; 0x55] ++ [0x55] ++ escape [0x54])
    = ([[0x01; 0x55]], Running (Controller.mk [0x54] Controller.STATE_NORMAL)).
Proof.
  apply (C4_resync_emits_closed_frames [0x09; 0x54] [0x01; 0x55] [0x54]).
  simpl. intros [H|[H|[]]]; discriminate H.
Defined.

(** ** C9: two start markers in a row *)

(** C9.  In the delimiter-terminated decoder a start marker in the in-frame
    state yields the accumulated buffer, empty or not.  So whenever two
    consecutive start markers arrive while the decoder is not behind an
    escape mark (the first one opens or closes a frame, the second one finds
    the buffer empty), a zero-length frame is emitted right after the frames
    of the stream up to the first marker; the body of [run] raises
    [ProtocolViolation] on a zero-length frame, and [run] on such a stream
    ends with [ProtocolViolation]. *)
Theorem C9_double_start_empty_frame
  (pre rest : list Z) (frames : list (list Z)) (s : Controller.locals)
  (m : Model.t) :
  Controller.read_frames pre = (frames, Running s) ->
  Controller.state s <> Controller.STATE_ESCAPE ->
  (forall buf,
     Controller.loop_body (Controller.mk buf Controller.STATE_NORMAL)
                          Controller.START_MARK
     = Ok (Controller.mk [] Controller.STATE_NORMAL, Some buf)) /\
  (exists later,
     fst (Controller.read_frames (pre ++ [0x55; 0x55] ++ rest))
     = fst (Controller.read_frames (pre ++ [0x55])) ++ [] :: later) /\
  Controller.handle_frame m [] = Raise ProtocolViolation /\
  snd (Controller.run m (pre ++ [0x55; 0x55] ++ rest)) = Some ProtocolViolation.
Proof.
  intros Hpre Hs.
  assert (H1 : exists fs,
             Controller.for_loop s [0x55]
             = (fs, Running (Controller.mk [] Controller.STATE_NORMAL))).
  { destruct s as [buf st]. simpl in Hs. destruct st.
    - exists []. rewrite (ignore_buffer_empty _ _ _ _ Hpre eq_refl). reflexivity.
    - exists [buf]. reflexivity.
    - contradiction. }
  destruct H1 as [fs H1].
  assert (Hp1 : Controller.read_frames (pre ++ [0x55])
                = (frames ++ fs,
                   Running (Controller.mk [] Controller.STATE_NORMAL))).
  { unfold Controller.read_frames in *.
    rewrite (for_loop_running _ _ _ _ _ Hpre), H1. reflexivity. }
  assert (Hp2 : exists later o,
             Controller.read_frames (pre ++ [0x55; 0x55] ++ rest)
             = ((frames ++ fs) ++ [] :: later, o)).
  { replace (pre ++ [0x55; 0x55] ++ rest)
      with ((pre ++ [0x55]) ++ 0x55 :: rest)
      by (rewrite <- app_assoc; reflexivity).
    unfold Controller.read_frames in *.
    rewrite (for_loop_running _ _ _ _ _ Hp1). simpl.
    destruct (Controller.for_loop
                (Controller.mk [] Controller.STATE_NORMAL) rest) as [later o].
    exists later, o. reflexivity. }
  destruct Hp2 as (later & o & Hp2).
  repeat split.
  - exists later. rewrite Hp2, Hp1. reflexivity.
  - unfold Controller.run. rewrite Hp2.
    pose proof (handle_frames_empty_frame m (frames ++ fs) later) as Hh.
    destruct (Controller.handle_frames m ((frames ++ fs) ++ [] :: later))
      as [m' [e|]]; simpl in Hh; [|discriminate].
    simpl. exact Hh.
Qed.

(** ** The length-aware decoder *)

Section BusFacts.
Import BusProtocol.
Variable lens : list nat.

Lemma escapes_plus_others (l : list Z) :
  (length (filter (fun val => val = ESCAPE_BYTE) l)
   + length (filter (fun val => val <> ESCAPE_BYTE) l))%nat = length l.
Proof.
  induction l as [|x l IH]; [reflexivity|].
  rewrite !filter_cons.
  destruct (decide (x = ESCAPE_BYTE)), (decide (x <> ESCAPE_BYTE));
    simpl; try lia; contradiction.
Qed.

(** One batch of the comprehension of line 116: the values are only
    collected until the batch is complete, and the checks of lines 118-124
    are then made on that batch alone. *)
Lemma collect_batch (addr : Z) (values : list Z) (batch : list Z) :
  forall (more : nat) (new_values : list Z),
  length batch = S more ->
  feed (send lens) (InValues addr values new_values more) batch =
  match end_of_batch addr values (new_values ++ batch) with
  | Ok (s', y) => (repeat None more ++ [y], Running s')
  | Raise e => (repeat None more, Raised e)
  end.
Proof.
  induction batch as [|b batch IH]; intros more nv Hlen; [discriminate|].
  simpl in Hlen. destruct more as [|more'].
  - destruct batch; [|discriminate]. simpl.
    destruct (end_of_batch addr values (nv ++ [b])) as [[s' y]|e];
      reflexivity.
  - simpl. rewrite (IH more' (nv ++ [b])) by lia.
    rewrite <- app_assoc. simpl.
    destruct (end_of_batch addr values (nv ++ b :: batch)) as [[s' y]|e];
      reflexivity.
Qed.

(** The loop of lines 115-124 on a run of raw bytes in which [S more]
    bytes are not escape bytes, the last byte is not an escape byte and no
    start marker occurs: it reads the run to its last byte, and no further;
    lines 126-138 then run on the values read. *)
Lemma read_run (addr : Z) (n : nat) :
  forall (remaining values : list Z) (more : nat),
  (length remaining <= n)%nat ->
  length (filter (fun val => val <> ESCAPE_BYTE) remaining) = S more ->
  START_OF_CMD_MARKER ∉ remaining ->
  last remaining <> Some ESCAPE_BYTE ->
  feed (send lens) (InValues addr values [] more) remaining
  = match yield_command addr (values ++ remaining) with
    | Ok (s', y) => (repeat None (length remaining - 1) ++ [y], Running s')
    | Raise e => (repeat None (length remaining - 1), Raised e)
    end.
Proof.
  induction n as [|n IH]; intros remaining values more Hn Hcount Hstart Hlast.
  { destruct remaining; [discriminate Hcount | simpl in Hn; lia]. }
  pose proof (length_filter (fun val => val <> ESCAPE_BYTE) remaining) as Hle.
  rewrite Hcount in Hle.
  rewrite <- (take_drop (S more) remaining) in Hcount, Hstart, Hlast |- *.
  set (batch := take (S more) remaining) in *.
  set (rest := drop (S more) remaining) in *.
  assert (Hb : length batch = S more) by (apply length_take_le; lia).
  assert (Hr : (length rest < length remaining)%nat).
  { unfold rest. rewrite length_drop. lia. }
  rewrite filter_app, length_app in Hcount.
  apply not_elem_of_app in Hstart as [Hsb Hsr].
  rewrite feed_app, (collect_batch addr values batch more [] Hb). simpl.
  unfold end_of_batch.
  destruct (decide (START_OF_CMD_MARKER ∈ batch)); [contradiction|].
  pose proof (escapes_plus_others batch) as Hsplit.
  destruct (length (filter (fun val => val = ESCAPE_BYTE) batch))
    as [|e] eqn:He; simpl.
  - (* no escape in the batch: the run is over *)
    assert (Hrest : rest = []).
    { destruct (last rest) as [x|] eqn:Hx; [|apply last_None; exact Hx].
      exfalso.
      assert (Hx' : x <> ESCAPE_BYTE).
      { intros ->. apply Hlast. apply last_app_Some. left. exact Hx. }
      apply last_Some_elem_of in Hx.
      assert (Hin : x ∈ filter (fun val => val <> ESCAPE_BYTE) rest)
        by (apply list_elem_of_filter; split; assumption).
      destruct (filter (fun val => val <> ESCAPE_BYTE) rest);
        [inversion Hin | simpl in Hcount; lia]. }
    rewrite Hrest, !app_nil_r, Hb. simpl. rewrite Nat.sub_0_r.
    destruct (yield_command addr (values ++ batch)) as [[s' y]|e'];
      [simpl; rewrite app_nil_r|]; reflexivity.
  - (* [S e] escapes: [S e] more bytes are wanted *)
    assert (Hcr : length (filter (fun val => val <> ESCAPE_BYTE) rest) = S e)
      by lia.
    assert (Hne : rest <> [])
      by (intros Hnil; rewrite Hnil in Hcr; discriminate).
    assert (Hlr : last rest <> Some ESCAPE_BYTE).
    { intros Hx. apply Hlast. apply last_app_Some. left. exact Hx. }
    rewrite (IH rest (values ++ batch) e) by (assumption || lia).
    assert (Hrl : (0 < length rest)%nat)
      by (destruct rest; simpl; [congruence|lia]).
    rewrite length_app, Hb, <- app_assoc.
    replace (S more + length rest - 1)%nat
      with (more + 1 + (length rest - 1))%nat by lia.
    rewrite !repeat_app. simpl.
    destruct (yield_command addr (values ++ batch ++ rest)) as [[s' y]|e'];
      rewrite <- ?app_assoc; reflexivity.
Qed.
End BusFacts.

(** ** The escaped form *)

Lemma escape_byte_cases (b : Z) :
  (b = 0x54 /\ escape_byte b = [0x54; 0x00]) \/
  (b = 0x55 /\ escape_byte b = [0x54; 0x01]) \/
  (b <> 0x54 /\ b <> 0x55 /\ escape_byte b = [b]).
Proof.
  unfold escape_byte, in_UNESCAPE_values.
  destruct (Z.eqb_spec b 0x54) as [->|H54]; [left; split; reflexivity|].
  destruct (Z.eqb_spec b 0x55) as [->|H55];
    [right; left; split; reflexivity|].
  right; right. repeat split; assumption.
Qed.

Lemma escape_cons (b : Z) (body : list Z) :
  escape (b :: body) = escape_byte b ++ escape body.
Proof. reflexivity. Qed.

Lemma escape_no_start (body : list Z) : START_OF_CMD_MARKER ∉ escape body.
Proof.
  induction body as [|b body IH]; [apply not_elem_of_nil|].
  rewrite escape_cons. apply not_elem_of_app. split; [|exact IH].
  destruct (escape_byte_cases b) as [[_ ->]|[[_ ->]|(_ & H55 & ->)]];
    rewrite ?not_elem_of_cons; repeat split;
    try apply not_elem_of_nil; try discriminate.
  intros Heq. apply H55. symmetry. exact Heq.
Qed.

Lemma escape_others (body : list Z) :
  length (filter (fun val => val <> ESCAPE_BYTE) (escape body)) = length body.
Proof.
  induction body as [|b body IH]; [reflexivity|].
  rewrite escape_cons, filter_app, length_app, IH. simpl. f_equal.
  destruct (escape_byte_cases b) as [[_ ->]|[[_ ->]|(H54 & _ & ->)]];
    [reflexivity | reflexivity |].
  rewrite filter_cons_True by exact H54. reflexivity.
Qed.

Lemma escape_last (body : list Z) : last (escape body) <> Some ESCAPE_BYTE.
Proof.
  induction body as [|b body IH]; [discriminate|].
  rewrite escape_cons. intros H. apply last_app_Some in H as [H|[Hnone H]].
  - exact (IH H).
  - destruct (escape_byte_cases b) as [[_ Hb]|[[_ Hb]|(H54 & _ & Hb)]];
      rewrite Hb in H; simpl in H; inversion H.
    apply H54. assumption.
Qed.

Lemma escape_length (body : list Z) :
  length (escape body)
  = (length body
     + length (filter (fun val => val = ESCAPE_BYTE) (escape body)))%nat.
Proof.
  rewrite <- (escapes_plus_others (escape body)), escape_others. lia.
Qed.

(** The unescaping loop of lines 126-136 undoes [escape]. *)
Lemma unescape_escape (body : list Z) :
  forall unescaped,
  BusProtocol.unescape_loop false unescaped (escape body)
  = Ok (unescaped ++ body).
Proof.
  induction body as [|b body IH]; intros acc.
  - simpl. rewrite app_nil_r. reflexivity.
  - rewrite escape_cons.
    replace (acc ++ b :: body) with ((acc ++ [b]) ++ body)
      by (rewrite <- app_assoc; reflexivity).
    rewrite <- IH.
    destruct (escape_byte_cases b) as [[-> ->]|[[-> ->]|(H54 & _ & ->)]];
      [reflexivity | reflexivity |].
    simpl. destruct (Z.eqb_spec b ESCAPE_BYTE); [contradiction|reflexivity].
Qed.

(** The image of [escape] is the set of byte sequences in which every
    escape byte is followed by [0x00] or [0x01] and no start marker
    occurs. *)
Lemma valid_escaped_escape (body : list Z) : valid_escaped (escape body).
Proof.
  induction body as [|b body IH]; [constructor|].
  rewrite escape_cons.
  destruct (escape_byte_cases b) as [[_ ->]|[[_ ->]|(H54 & H55 & ->)]]; simpl.
  - apply valid_pair; [left; reflexivity | exact IH].
  - apply valid_pair; [right; reflexivity | exact IH].
  - apply valid_plain; assumption.
Qed.

Lemma valid_escaped_inv (raw : list Z) :
  valid_escaped raw -> exists body, raw = escape body.
Proof.
  induction 1 as [|b raw H54 H55 _ [body ->]|c raw Hc _ [body ->]].
  - exists []. reflexivity.
  - exists (b :: body). rewrite escape_cons.
    destruct (escape_byte_cases b) as [[? _]|[[? _]|(_ & _ & ->)]];
      [contradiction | contradiction | reflexivity].
  - destruct Hc as [->| ->].
    + exists (0x54 :: body). reflexivity.
    + exists (0x55 :: body). reflexivity.
Qed.

(** ** C6: the escape extension of the length-aware decoder *)

(** C6.  In the length-aware decoder, a completed batch of raw bytes that
    holds no start marker is appended to the values read so far, the escape
    bytes of that batch alone are counted, and exactly that many further
    bytes are awaited (the loop ends when the count is zero).  For a module
    address with [expected] channels, the loop therefore stops exactly at
    the [expected]-th byte that is not an escape byte: on every run of raw
    bytes that ends there and holds no start marker, the decoder consumes
    the address and exactly the run, which is [expected] bytes plus one
    byte per escape byte, and only then unescapes.  In particular, for
    every escaped payload of [expected] bytes, whatever its escape bytes
    and wherever they fall, it yields nothing before the last byte of the
    escaped payload and the command with the original payload on it. *)
Theorem C6_escape_extension
  (lens : list nat) (addr : Z) (expected : nat) :
  addr <> ESCAPE_BYTE -> addr <> START_OF_CMD_MARKER -> addr <> STROBE_PADDR ->
  py_getitem lens addr = Ok expected ->
  (forall values batch more,
     length batch = S more -> ~ In START_OF_CMD_MARKER batch ->
     feed (BusProtocol.send lens)
          (BusProtocol.InValues addr values [] more) batch
     = match length (filter (fun val => val = ESCAPE_BYTE) batch) with
       | O =>
           match BusProtocol.yield_command addr (values ++ batch) with
           | Ok (s', y) => (repeat None more ++ [y], Running s')
           | Raise e => (repeat None more, Raised e)
           end
       | S extra =>
           (repeat None (S more),
            Running (BusProtocol.InValues addr (values ++ batch) [] extra))
       end) /\
  (forall run,
     length (filter (fun val => val <> ESCAPE_BYTE) run) = expected ->
     ~ In START_OF_CMD_MARKER run ->
     last run <> Some ESCAPE_BYTE ->
     feed (BusProtocol.send lens) BusProtocol.AtAddr (addr :: run)
     = match BusProtocol.yield_command addr run with
       | Ok (s', y) => (repeat None (length run) ++ [y], Running s')
       | Raise e => (repeat None (length run), Raised e)
       end /\
     length run
     = (expected + length (filter (fun val => val = ESCAPE_BYTE) run))%nat) /\
  (forall payload,
     length payload = expected ->
     feed (BusProtocol.send lens) BusProtocol.AtAddr (addr :: escape payload)
     = (repeat None (length (escape payload))
          ++ [Some (BusSetChannelsCommand addr payload)],
        Running BusProtocol.AfterCommand) /\
     length (escape payload)
     = (expected
        + length (filter (fun val => val = ESCAPE_BYTE) (escape payload)))%nat).
Proof.
  intros Hesc Hstart Hstrobe Hlen.
  assert (Hrun : forall run,
    length (filter (fun val => val <> ESCAPE_BYTE) run) = expected ->
    START_OF_CMD_MARKER ∉ run ->
    last run <> Some ESCAPE_BYTE ->
    feed (BusProtocol.send lens) BusProtocol.AtAddr (addr :: run)
    = match BusProtocol.yield_command addr run with
      | Ok (s', y) => (repeat None (length run) ++ [y], Running s')
      | Raise e => (repeat None (length run), Raised e)
      end).
  { intros run Hcount Hns Hlast. simpl.
    destruct (Z.eqb_spec addr ESCAPE_BYTE); [contradiction|].
    destruct (Z.eqb_spec addr START_OF_CMD_MARKER); [contradiction|].
    unfold BusProtocol.dispatch.
    destruct (Z.eqb_spec addr STROBE_PADDR); [contradiction|].
    destruct (Z.eqb_spec addr START_OF_CMD_MARKER); [contradiction|].
    rewrite Hlen. simpl.
    destruct expected as [|more]; simpl.
    - assert (Hnil : run = []).
      { destruct (last run) as [x|] eqn:Hx; [|apply last_None; exact Hx].
        exfalso.
        assert (Hx' : x <> ESCAPE_BYTE) by (intros ->; exact (Hlast eq_refl)).
        apply last_Some_elem_of in Hx.
        assert (Hin : x ∈ filter (fun val => val <> ESCAPE_BYTE) run)
          by (apply list_elem_of_filter; split; assumption).
        destruct (filter (fun val => val <> ESCAPE_BYTE) run);
          [inversion Hin | discriminate Hcount]. }
      subst run. reflexivity.
    - rewrite (read_run lens addr (length run) run [] more
                 (Nat.le_refl _) Hcount Hns Hlast). simpl.
      assert (Hpos : (0 < length run)%nat).
      { destruct run; [discriminate Hcount | simpl; lia]. }
      destruct (length run) as [|k]; [lia|]. simpl. rewrite Nat.sub_0_r.
      destruct (BusProtocol.yield_command addr run) as [[s' y]|e];
        reflexivity. }
  split; [|split].
  - intros values batch more Hb Hin.
    rewrite (collect_batch lens addr values batch more [] Hb). simpl.
    unfold BusProtocol.end_of_batch.
    destruct (decide (START_OF_CMD_MARKER ∈ batch)) as [Hs|_].
    { exfalso. apply Hin. apply list_elem_of_In. exact Hs. }
    destruct (length (filter (fun val => val = ESCAPE_BYTE) batch)); simpl.
    + reflexivity.
    + f_equal. symmetry. apply (repeat_cons more (@None Command)).
  - intros run Hcount Hns Hlast. split.
    + apply Hrun; [exact Hcount | | exact Hlast].
      intros Hs. apply Hns. apply list_elem_of_In. exact Hs.
    + rewrite <- (escapes_plus_others run), Hcount. lia.
  - intros payload Hp. split.
    + rewrite (Hrun (escape payload)).
      * unfold BusProtocol.yield_command.
        rewrite (unescape_escape payload []). reflexivity.
      * rewrite escape_others. exact Hp.
      * apply escape_no_start.
      * apply escape_last.
    + rewrite escape_length, Hp. reflexivity.
Qed.

(** A payload of two escape bytes for a module of two channels: the raw run
    is read in batches of two, one and one bytes. *)
Lemma C6_escape_extension_witness :
  feed (BusProtocol.send [2%nat]) BusProtocol.AtAddr
       (0 :: escape [0x54; 0x54])
  = (repeat None (length (escape [0x54; 0x54]))
       ++ [Some (BusSetChannelsCommand 0 [0x54; 0x54])],
     Running BusProtocol.AfterCommand).
Proof.
  destruct (C6_escape_extension [2%nat] 0 2%nat) as (_ & _ & H);
    [discriminate | discriminate | discriminate | reflexivity |].
  apply (H [0x54; 0x54]). reflexivity.
Defined.

(** ** C8: an address without a configured length *)

(** The claim of C8 as stated fails: with one configured module, the frame
    for module 5 ends the generator with [IndexError], and the valid frame
    for module 0 that follows it is not decoded (alone, it is). *)
Lemma C8_counterexample :
  BusProtocol.read [1%nat] [0x55; 0x00; 0x07]
    = ([None; None; Some (BusSetChannelsCommand 0 [7])],
       Running BusProtocol.AfterCommand) /\
  BusProtocol.read [1%nat] ([0x55; 0x05] ++ [0x55; 0x00; 0x07])
    = ([None], Raised IndexError).
Proof. split; reflexivity. Qed.

(** C8, amended.  For every frame whose address byte (other than the strobe
    address, the escape byte and the start marker) lies beyond the
    configured module lengths, decoding that frame raises [IndexError] at
    the address byte.  No command is yielded for the frame, and the
    exception ends the decode session: whatever follows in the stream, the
    decoder has yielded only what it yielded before that frame. *)
Theorem C8_unknown_address_ends_session
  (lens : list nat) (pre rest : list Z) (addr : Z)
  (ys : list (option Command)) :
  BusProtocol.read lens pre = (ys, Running BusProtocol.AtAddr) ->
  addr <> STROBE_PADDR -> addr <> ESCAPE_BYTE -> addr <> START_OF_CMD_MARKER ->
  Z.of_nat (length lens) <= addr ->
  BusProtocol.read lens (pre ++ addr :: rest) = (ys, Raised IndexError).
Proof.
  intros Hpre Hstrobe Hesc Hstart Hlen. unfold BusProtocol.read in *.
  rewrite (feed_running _ _ _ _ _ _ Hpre). simpl.
  destruct (Z.eqb_spec addr ESCAPE_BYTE); [contradiction|].
  destruct (Z.eqb_spec addr START_OF_CMD_MARKER); [contradiction|].
  unfold BusProtocol.dispatch.
  destruct (Z.eqb_spec addr STROBE_PADDR); [contradiction|].
  destruct (Z.eqb_spec addr START_OF_CMD_MARKER); [contradiction|].
  unfold py_getitem, py_index.
  destruct (Z.ltb_spec addr (Z.of_nat (length lens))); [lia|].
  rewrite andb_false_r.
  destruct (Z.ltb_spec addr 0); [lia|].
  rewrite andb_false_r. simpl. rewrite app_nil_r. reflexivity.
Qed.

Lemma C8_unknown_address_ends_session_witness :
  BusProtocol.read [1%nat] ([0x09; 0x55] ++ 0x05 :: [0x55; 0x00; 0x07])
    = ([None; None], Raised IndexError).
Proof.
  apply (C8_unknown_address_ends_session [1%nat] [0x09; 0x55]
           [0x55; 0x00; 0x07] 0x05 [None; None]);
    [reflexivity | discriminate | discriminate | discriminate | simpl; lia].
Defined.

Lemma C9_double_start_empty_frame_witness :
  snd (Controller.run (Model.init 1 1)
         ([0x09; 0x55; 0x01] ++ [0x55; 0x55] ++ [0x02]))
  = Some ProtocolViolation.
Proof.
  apply (C9_double_start_empty_frame [0x09; 0x55; 0x01] [0x02] []
           (Controller.mk [0x01] Controller.STATE_NORMAL) (Model.init 1 1));
    [reflexivity | discriminate].
Defined.

(** ** The LED-state model *)

Section ModelFacts.
Import Model.

Lemma py_getitem_elem {A : Type} (l : list A) (i : Z) (x : A) :
  py_getitem l i = Ok x -> x ∈ l.
Proof.
  unfold py_getitem. destruct (py_index l i) as [k|]; [|discriminate].
  destruct (l !! k) as [y|] eqn:Hk; [|discriminate].
  intros [= <-]. eapply list_elem_of_lookup_2. exact Hk.
Qed.

Lemma elem_of_cells (buf : list (list loc)) (row : list loc) (l : loc) :
  row ∈ buf -> l ∈ row -> l ∈ cells buf.
Proof.
  intros Hrow Hl. apply list_elem_of_In. apply in_concat.
  exists row. split; apply list_elem_of_In; assumption.
Qed.

(** Objects of a store keep their address and items when the store
    grows. *)
Lemma row_app (h ext : list (list Z)) (row : list loc) :
  Forall (fun l => (l < length h)%nat) row ->
  map (fun l => (h ++ ext) !!! l) row = map (fun l => h !!! l) row.
Proof.
  induction 1 as [|l row Hl _ IH]; [reflexivity|].
  simpl. rewrite IH, lookup_total_app_l by exact Hl. reflexivity.
Qed.

Lemma contents_app (h ext : list (list Z)) (buf : list (list loc)) :
  Forall (fun l => (l < length h)%nat) (cells buf) ->
  contents (h ++ ext) buf = contents h buf.
Proof.
  induction buf as [|row buf IH]; [reflexivity|].
  unfold cells. simpl. intros H. apply Forall_app in H as [Hrow Hbuf].
  unfold contents in *. simpl. rewrite row_app by exact Hrow.
  rewrite IH by exact Hbuf. reflexivity.
Qed.

(** Assigning into an object leaves every buffer that does not refer to
    it as it was. *)
Lemma contents_insert (h : list (list Z)) (l : loc) (cell : list Z)
  (buf : list (list loc)) :
  l ∉ cells buf ->
  contents (<[l := cell]> h) buf = contents h buf.
Proof.
  induction buf as [|row buf IH]; [reflexivity|].
  unfold cells. simpl. intros H. apply not_elem_of_app in H as [Hrow Hbuf].
  unfold contents in *. simpl. rewrite IH by exact Hbuf. f_equal.
  clear IH Hbuf. induction row as [|l0 row IHr]; [reflexivity|].
  apply not_elem_of_cons in Hrow as [Hne Hrow]. simpl.
  rewrite IHr by exact Hrow.
  rewrite list_lookup_total_insert_ne by exact Hne. reflexivity.
Qed.

(** *** [copy.deepcopy] *)

Lemma copying_start (h0 : list (list Z)) : copying h0 (h0, ∅).
Proof.
  split.
  - exists []. simpl. rewrite app_nil_r. reflexivity.
  - intros l l' H. simpl in H. rewrite lookup_empty in H. discriminate.
Qed.

Lemma deepcopy_cell_ok (h0 : list (list Z)) st (l : loc) st' (l' : loc) :
  copying h0 st -> (l < length h0)%nat ->
  deepcopy_cell st l = (st', l') ->
  copying h0 st' /\
  (exists ext, fst st' = fst st ++ ext) /\
  (length h0 <= l' < length (fst st'))%nat /\
  fst st' !!! l' = h0 !!! l.
Proof.
  destruct st as [h memo]. intros [[ext Hext] Hmemo] Hl. simpl in Hext.
  unfold deepcopy_cell, alloc.
  destruct (memo !! l) as [l0|] eqn:Hlook; intros [= <- <-].
  - destruct (Hmemo _ _ Hlook) as (_ & Hb & Hc).
    split; [split; [exists ext; exact Hext | exact Hmemo]|].
    split; [exists []; rewrite app_nil_r; reflexivity|].
    split; assumption.
  - assert (Hnew : (h ++ [h !!! l]) !!! length h = h0 !!! l).
    { rewrite list_lookup_total_middle by reflexivity.
      rewrite Hext. apply lookup_total_app_l. exact Hl. }
    assert (Hlen : length (h ++ [h !!! l]) = S (length h))
      by (rewrite length_app; simpl; lia).
    assert (Hh0 : (length h0 <= length h)%nat)
      by (rewrite Hext, length_app; lia).
    split; [split|split; [|split]]; simpl.
    + exists (ext ++ [h !!! l]). rewrite Hext, <- app_assoc. reflexivity.
    + intros k k' H. rewrite Hlen.
      destruct (decide (l = k)) as [<-|Hne].
      * rewrite lookup_insert_eq in H. injection H as <-.
        split; [exact Hl|]. split; [lia | exact Hnew].
      * rewrite lookup_insert_ne in H by exact Hne.
        destruct (Hmemo _ _ H) as (Hk & Hb & Hc). simpl in Hb, Hc.
        split; [exact Hk|]. split; [lia|].
        rewrite lookup_total_app_l by lia. exact Hc.
    + exists [h !!! l]. reflexivity.
    + rewrite Hlen. lia.
    + exact Hnew.
Qed.

Lemma deepcopy_row_ok (h0 : list (list Z)) (row : list loc) :
  forall st st' row',
  copying h0 st -> Forall (fun l => (l < length h0)%nat) row ->
  deepcopy_row st row = (st', row') ->
  copying h0 st' /\
  (exists ext, fst st' = fst st ++ ext) /\
  Forall (fun l' => (length h0 <= l' < length (fst st'))%nat) row' /\
  map (fun l' => fst st' !!! l') row' = map (fun l => h0 !!! l) row.
Proof.
  induction row as [|l row IH]; intros st st' row' Hst Hrow; simpl.
  - intros [= <- <-]. split; [exact Hst|].
    split; [exists []; rewrite app_nil_r; reflexivity|].
    split; [constructor | reflexivity].
  - apply Forall_cons in Hrow as [Hl Hrow].
    destruct (deepcopy_cell st l) as [st1 l1] eqn:Hcell.
    destruct (deepcopy_row st1 row) as [st2 ls] eqn:Hrest.
    intros [= <- <-].
    destruct (deepcopy_cell_ok _ _ _ _ _ Hst Hl Hcell)
      as (Hst1 & [ext1 He1] & Hb1 & Hc1).
    destruct (IH _ _ _ Hst1 Hrow Hrest) as (Hst2 & [ext2 He2] & Hb2 & Hc2).
    split; [exact Hst2|].
    split; [exists (ext1 ++ ext2); rewrite He2, He1, app_assoc; reflexivity|].
    assert (Hlen : (length (fst st1) <= length (fst st2))%nat)
      by (rewrite He2, length_app; lia).
    split.
    + constructor; [lia | exact Hb2].
    + simpl. rewrite Hc2. f_equal.
      rewrite He2, lookup_total_app_l by lia. exact Hc1.
Qed.

Lemma deepcopy_rows_ok (h0 : list (list Z)) (rows : list (list loc)) :
  forall st st' rows',
  copying h0 st -> Forall (fun l => (l < length h0)%nat) (cells rows) ->
  deepcopy_rows st rows = (st', rows') ->
  copying h0 st' /\
  (exists ext, fst st' = fst st ++ ext) /\
  Forall (fun l' => (length h0 <= l' < length (fst st'))%nat) (cells rows') /\
  contents (fst st') rows' = contents h0 rows.
Proof.
  induction rows as [|row rows IH]; intros st st' rows' Hst Hrows; simpl.
  - intros [= <- <-]. split; [exact Hst|].
    split; [exists []; rewrite app_nil_r; reflexivity|].
    split; [constructor | reflexivity].
  - unfold cells in Hrows. simpl in Hrows.
    apply Forall_app in Hrows as [Hrow Hrows].
    destruct (deepcopy_row st row) as [st1 row1] eqn:Hr.
    destruct (deepcopy_rows st1 rows) as [st2 rs] eqn:Hrest.
    intros [= <- <-].
    destruct (deepcopy_row_ok _ _ _ _ _ Hst Hrow Hr)
      as (Hst1 & [ext1 He1] & Hb1 & Hc1).
    destruct (IH _ _ _ Hst1 Hrows Hrest) as (Hst2 & [ext2 He2] & Hb2 & Hc2).
    split; [exact Hst2|].
    split; [exists (ext1 ++ ext2); rewrite He2, He1, app_assoc; reflexivity|].
    assert (Hlen : (length (fst st1) <= length (fst st2))%nat)
      by (rewrite He2, length_app; lia).
    split.
    + unfold cells. simpl. apply Forall_app. split; [|exact Hb2].
      eapply Forall_impl; [exact Hb1|]. simpl. intros; lia.
    + unfold contents in *. simpl. rewrite Hc2. f_equal.
      rewrite He2, row_app; [exact Hc1|].
      eapply Forall_impl; [exact Hb1|]. simpl. intros; lia.
Qed.

(** A deep copy of a buffer whose objects are in the store: the store
    grows by new objects only, the copy refers to new objects only, and it
    shows what the original shows. *)
Lemma deepcopy_ok (h : list (list Z)) (buf : list (list loc)) :
  Forall (fun l => (l < length h)%nat) (cells buf) ->
  (exists ext, fst (deepcopy h buf) = h ++ ext) /\
  Forall (fun l' => (length h <= l' < length (fst (deepcopy h buf)))%nat)
         (cells (snd (deepcopy h buf))) /\
  contents (fst (deepcopy h buf)) (snd (deepcopy h buf)) = contents h buf.
Proof.
  intros Hbuf. unfold deepcopy.
  destruct (deepcopy_rows (h, ∅) buf) as [[h' memo] buf'] eqn:Hcopy.
  destruct (deepcopy_rows_ok _ _ _ _ _ (copying_start h) Hbuf Hcopy)
    as (_ & Hext & Hb & Hc).
  simpl in *. auto.
Qed.

(** *** [Model.__init__] *)

Lemma new_row_ok (n : nat) :
  forall h,
  (exists ext, fst (new_row h n) = h ++ ext) /\
  Forall (fun l => (length h <= l < length (fst (new_row h n)))%nat)
         (snd (new_row h n)).
Proof.
  induction n as [|n IH]; intros h; simpl.
  - split; [exists []; rewrite app_nil_r; reflexivity | constructor].
  - destruct (IH (h ++ [[0; 0; 0]])) as [[ext He] Hb].
    destruct (new_row (h ++ [[0; 0; 0]]) n) as [h2 ls]. simpl in *.
    subst h2. rewrite !length_app in *. simpl in *.
    split; [exists ([[0; 0; 0]] ++ ext); rewrite <- app_assoc; reflexivity|].
    constructor; [lia|].
    eapply Forall_impl; [exact Hb|]. simpl. intros; lia.
Qed.

Lemma new_rows_ok (k n : nat) :
  forall h,
  (exists ext, fst (new_rows h k n) = h ++ ext) /\
  Forall (fun l => (length h <= l < length (fst (new_rows h k n)))%nat)
         (cells (snd (new_rows h k n))).
Proof.
  induction k as [|k IH]; intros h; simpl.
  - split; [exists []; rewrite app_nil_r; reflexivity | constructor].
  - destruct (new_row_ok n h) as [[ext1 He1] Hb1].
    destruct (new_row h n) as [h1 row]. simpl in *.
    destruct (IH h1) as [[ext2 He2] Hb2].
    destruct (new_rows h1 k n) as [h2 rows]. simpl in *.
    subst h1 h2. rewrite !length_app in *.
    split; [exists (ext1 ++ ext2); rewrite <- app_assoc; reflexivity|].
    unfold cells in *. simpl. apply Forall_app. split.
    + eapply Forall_impl; [exact Hb1|]. simpl. intros; lia.
    + eapply Forall_impl; [exact Hb2|]. simpl. intros; lia.
Qed.

(** A buffer whose objects all lie below [n] and one whose objects all lie
    at [n] or above share nothing. *)
Lemma cells_apart (n : nat) (old new : list loc) :
  Forall (fun l => (l < n)%nat) old ->
  Forall (fun l => (n <= l)%nat) new ->
  Forall (fun l => l ∉ old) new.
Proof.
  intros Hold Hnew. eapply Forall_impl; [exact Hnew|].
  simpl. intros l Hl Hin.
  rewrite Forall_forall in Hold. specialize (Hold _ Hin). lia.
Qed.

Lemma init_wf (modules leds_per_module : Z) :
  wf (init modules leds_per_module).
Proof.
  unfold init.
  destruct (new_rows_ok (Z.to_nat modules) (Z.to_nat leds_per_module) [])
    as [_ Hb].
  destruct (new_rows [] (Z.to_nat modules) (Z.to_nat leds_per_module))
    as [h1 back]. simpl in Hb.
  assert (Hback : Forall (fun l => (l < length h1)%nat) (cells back))
    by (eapply Forall_impl; [exact Hb|]; simpl; intros; lia).
  destruct (deepcopy_ok h1 back Hback) as ([ext He] & Hf & _).
  destruct (deepcopy h1 back) as [h2 front]. simpl in *.
  unfold wf. simpl. split.
  - apply Forall_app. split.
    + eapply Forall_impl; [exact Hback|]. simpl. intros l Hl.
      rewrite He, length_app. lia.
    + eapply Forall_impl; [exact Hf|]. simpl. intros; lia.
  - apply (cells_apart (length h1)); [exact Hback|].
    eapply Forall_impl; [exact Hf|]. simpl. intros; lia.
Qed.

(** *** [Model.set_value] and [Model.strobe] *)

(** [set_value] changes nothing, or assigns into one object that the back
    buffer refers to. *)
Lemma set_value_cases (m : t) (module channel value : Z) :
  set_value m module channel value = m \/
  exists l cell,
    l ∈ cells (back_buffer m) /\
    set_value m module channel value
    = {| modules := modules m; leds_per_module := leds_per_module m;
         observers := observers m;
         heap := <[l := cell]> (heap m);
         back_buffer := back_buffer m; front_buffer := front_buffer m |}.
Proof.
  unfold set_value.
  destruct (py_getitem (back_buffer m) module) as [row|e] eqn:Hrow;
    [|left; reflexivity]. simpl.
  destruct (py_getitem row (channel / 3)) as [l|e] eqn:Hl;
    [|left; reflexivity]. simpl.
  destruct (py_setitem (heap m !!! l) (channel mod 3) value) as [cell|e];
    [|left; reflexivity]. simpl.
  right. exists l, cell. split; [|reflexivity].
  eapply elem_of_cells; eapply py_getitem_elem; eassumption.
Qed.

Lemma set_value_ok (m : t) (module channel value : Z) :
  wf m ->
  let m' := set_value m module channel value in
  front_buffer m' = front_buffer m /\
  back_buffer m' = back_buffer m /\
  contents (heap m') (front_buffer m') = contents (heap m) (front_buffer m) /\
  (forall l, l ∉ cells (back_buffer m) -> heap m' !! l = heap m !! l) /\
  wf m'.
Proof.
  intros [Hdom Hapart]. simpl.
  destruct (set_value_cases m module channel value) as [->|(l & cell & Hl & ->)].
  - repeat split; auto.
  - simpl. split; [reflexivity|]. split; [reflexivity|].
    split; [|split].
    + apply contents_insert. intros Hin.
      rewrite Forall_forall in Hapart. exact (Hapart _ Hin Hl).
    + intros l0 Hl0. apply list_lookup_insert_ne. intros ->. exact (Hl0 Hl).
    + split; simpl; [|exact Hapart]. rewrite length_insert. exact Hdom.
Qed.

Lemma strobe_ok (m : t) :
  wf m ->
  let m' := strobe m in
  back_buffer m' = back_buffer m /\
  contents (heap m') (back_buffer m') = contents (heap m) (back_buffer m) /\
  contents (heap m') (front_buffer m') = contents (heap m) (back_buffer m) /\
  Forall (fun l => l ∉ cells (back_buffer m')) (cells (front_buffer m')) /\
  (forall l, (l < length (heap m))%nat -> heap m' !! l = heap m !! l) /\
  wf m'.
Proof.
  intros [Hdom _]. simpl. apply Forall_app in Hdom as [Hback _].
  unfold strobe.
  destruct (deepcopy_ok (heap m) (back_buffer m) Hback) as ([ext He] & Hf & Hc).
  destruct (deepcopy (heap m) (back_buffer m)) as [h' front]. simpl in *.
  assert (Hapart : Forall (fun l => l ∉ cells (back_buffer m)) (cells front)).
  { apply (cells_apart (length (heap m))); [exact Hback|].
    eapply Forall_impl; [exact Hf|]. simpl. intros; lia. }
  split; [reflexivity|]. split; [|split; [|split; [|split]]].
  - rewrite He. apply contents_app. exact Hback.
  - exact Hc.
  - exact Hapart.
  - intros l Hl. rewrite He. apply lookup_app_l. exact Hl.
  - split; simpl; [|exact Hapart]. apply Forall_app. split.
    + eapply Forall_impl; [exact Hback|]. simpl. intros l Hl.
      rewrite He, length_app. lia.
    + eapply Forall_impl; [exact Hf|]. simpl. intros; lia.
Qed.
End ModelFacts.

(** ** C10: the double buffer *)

(** C10.  In a model whose two buffers refer to objects of the store and
    share none of them (as [Model.__init__] builds it, and as [set_value]
    and [strobe] keep it), every [set_value] call assigns at most into an
    object of the back buffer: the front buffer refers to the same objects
    and shows the same values as before.  [add_observer] touches neither
    buffer.  [strobe] makes the front buffer show what the back buffer
    shows, through objects of its own that the back buffer does not refer
    to (a deep copy), and leaves the back buffer and what it shows
    unchanged. *)
Theorem C10_double_buffer
  (m : Model.t) (module channel value : Z) (func : nat) :
  Model.wf m ->
  (Model.front_buffer (Model.set_value m module channel value)
     = Model.front_buffer m /\
   Model.contents (Model.heap (Model.set_value m module channel value))
                  (Model.front_buffer (Model.set_value m module channel value))
     = Model.contents (Model.heap m) (Model.front_buffer m) /\
   (forall l, l ∉ Model.cells (Model.back_buffer m) ->
      Model.heap (Model.set_value m module channel value) !! l
      = Model.heap m !! l) /\
   Model.wf (Model.set_value m module channel value)) /\
  (Model.front_buffer (Model.add_observer m func) = Model.front_buffer m /\
   Model.back_buffer (Model.add_observer m func) = Model.back_buffer m /\
   Model.heap (Model.add_observer m func) = Model.heap m) /\
  (Model.contents (Model.heap (Model.strobe m))
                  (Model.front_buffer (Model.strobe m))
     = Model.contents (Model.heap m) (Model.back_buffer m) /\
   Forall (fun l => l ∉ Model.cells (Model.back_buffer (Model.strobe m)))
          (Model.cells (Model.front_buffer (Model.strobe m))) /\
   Model.back_buffer (Model.strobe m) = Model.back_buffer m /\
   Model.contents (Model.heap (Model.strobe m))
                  (Model.back_buffer (Model.strobe m))
     = Model.contents (Model.heap m) (Model.back_buffer m) /\
   Model.wf (Model.strobe m)).
Proof.
  intros Hwf.
  destruct (set_value_ok m module channel value Hwf)
    as (Hf & _ & Hc & Hframe & Hwf1).
  destruct (strobe_ok m Hwf) as (Hb & Hcb & Hcf & Hapart & _ & Hwf2).
  split; [|split].
  - split; [exact Hf|]. split; [exact Hc|]. split; [exact Hframe | exact Hwf1].
  - repeat split.
  - split; [exact Hcf|]. split; [exact Hapart|]. split; [exact Hb|].
    split; [exact Hcb | exact Hwf2].
Qed.

(** On the model of two modules of two LEDs: setting the green channel of
    the last LED shows in the back buffer only, until the strobe. *)
Lemma C10_double_buffer_witness :
  Model.contents (Model.heap (Model.set_value (Model.init 2 2) 1 4 9))
                 (Model.front_buffer (Model.set_value (Model.init 2 2) 1 4 9))
  = Model.contents (Model.heap (Model.init 2 2))
                   (Model.front_buffer (Model.init 2 2)) /\
  Model.contents (Model.heap (Model.strobe (Model.init 2 2)))
                 (Model.front_buffer (Model.strobe (Model.init 2 2)))
  = Model.contents (Model.heap (Model.init 2 2))
                   (Model.back_buffer (Model.init 2 2)).
Proof.
  assert (Hwf : Model.wf (Model.init 2 2)).
  { unfold Model.wf. apply (bool_decide_unpack _). vm_compute. exact I. }
  destruct (C10_double_buffer (Model.init 2 2) 1 4 9 0%nat Hwf)
    as ((_ & H1 & _) & _ & (H2 & _)).
  split; [exact H1 | exact H2].
Defined.

(** * Further properties of the code *)

(** ** The encoders of the net-level commands *)




Lemma chr_Ok (z b : Z) : chr z = Ok b -> b = z /\ is_byte z.
Proof.
  unfold chr, is_byte.
  destruct (Z.leb_spec 0 z), (Z.ltb_spec z 256); simpl; intros [= <-]; lia.
Qed.

(** A 16-bit value is determined by its two halves. *)
Lemma hi_lo_inj (x y : Z) :
  Z.shiftr x 8 = Z.shiftr y 8 -> Z.land x 255 = Z.land y 255 -> x = y.
Proof.
  intros Hhi Hlo. rewrite <- (hi_lo_join x), <- (hi_lo_join y), Hhi, Hlo.
  reflexivity.
Qed.

(** Two bytes joined as [hi << 8 | lo] split again into the same bytes. *)
Lemma join_hi (hi lo : Z) :
  is_byte lo -> Z.shiftr (Z.lor (Z.shiftl hi 8) lo) 8 = hi.
Proof.
  intros Hlo. rewrite Z.shiftr_lor, Z.shiftr_shiftl_l by lia.
  rewrite Z.sub_diag, Z.shiftl_0_r.
  rewrite (Z.shiftr_div_pow2 lo) by lia. change (2 ^ 8) with 256.
  rewrite Z.div_small by exact Hlo. apply Z.lor_0_r.
Qed.

Lemma join_lo (hi lo : Z) :
  is_byte lo -> Z.land (Z.lor (Z.shiftl hi 8) lo) 255 = lo.
Proof.
  intros Hlo. change 255 with (Z.ones 8). rewrite Z.land_ones by lia.
  rewrite <- Z.land_ones by lia.
  rewrite Z.land_lor_distr_l.
  assert (H0 : Z.land (Z.shiftl hi 8) (Z.ones 8) = 0).
  { apply Z.bits_inj'. intros n Hn. rewrite Z.land_spec, Z.bits_0.
    destruct (Z.ltb_spec n 8).
    - rewrite Z.shiftl_spec_low by lia. reflexivity.
    - rewrite Z.ones_spec_high by lia. apply andb_false_r. }
  rewrite H0, Z.lor_0_l, Z.land_ones by lia. change (2 ^ 8) with 256.
  apply Z.mod_small. exact Hlo.
Qed.



Ltac invert_chr H :=
  repeat match type of H with
         | context [chr ?z] =>
             let E := fresh "E" in
             destruct (chr z) eqn:E; simpl in H; [|discriminate H];
             apply chr_Ok in E as [-> _]
         end.

(** X3.  No two commands share an encoding, except through the defect of
    [BusSetChannelsCommand.to_str], which encodes every command it accepts
    as the start marker alone: two commands with the same encoding, other
    than that one byte, are the same command. *)
Theorem X3_encoding_injective (c1 c2 : Command) (bytes : list Z) :
  to_str c1 = Ok bytes -> to_str c2 = Ok bytes ->
  bytes <> [START_OF_CMD_MARKER] ->
  c1 = c2.
Proof.
  intros H1 H2 Hne.
  assert (Hbus : forall m ch, to_str (BusSetChannelsCommand m ch) <> Ok bytes).
  { intros m ch Hb. apply Hne. eapply to_str_loop_res. exact Hb. }
  destruct c1 as [| |m1 ch1|led1 [[[a0 a1] a2] a3]|t1|led1 [[[a0 a1] a2] a3]];
    try (exfalso; exact (Hbus _ _ H1));
    destruct c2 as [| |m2 ch2|led2 [[[b0 b1] b2] b3]|t2|led2 [[[b0 b1] b2] b3]];
    try (exfalso; exact (Hbus _ _ H2));
    simpl in H1, H2; invert_chr H1; invert_chr H2;
    try (rewrite <- H1 in H2; discriminate H2);
    try reflexivity.
  - injection H1 as <-. injection H2 as Hhi Hlo -> -> -> ->.
    f_equal. symmetry. apply hi_lo_inj; assumption.
  - injection H1 as <-. injection H2 as ->. reflexivity.
  - injection H1 as <-.
    injection H2 as Hhi Hlo H0h H0l H1h H1l H2h H2l H3h H3l.
    f_equal; [|repeat f_equal]; symmetry; apply hi_lo_inj; assumption.
Qed.

Lemma X3_encoding_injective_witness :
  SetLedCommand 1 (2, 3, 4, 5) = SetLedCommand 1 (2, 3, 4, 5).
Proof.
  apply (X3_encoding_injective _ _ [1; 0; 1; 2; 3; 4; 5]);
    [reflexivity | reflexivity | discriminate].
Defined.

(** ** [FilelikeController] and [NetProtocol.read] *)

Lemma yielded_app {Out : Type} (ys1 ys2 : list (option Out)) :
  yielded (ys1 ++ ys2) = yielded ys1 ++ yielded ys2.
Proof. unfold yielded. apply omap_app. Qed.

Lemma yielded_repeat_None {Out : Type} (n : nat) :
  yielded (repeat (@None Out) n) = [].
Proof. induction n as [|n IH]; [reflexivity | exact IH]. Qed.

Lemma perform_send (f : list Z) (c : FilelikeController.call) :
  FilelikeController.perform f c
  = FilelikeController._send f (FilelikeController.command_of c).
Proof.
  destruct c as [led [[r g] b] a|led [[r g] b] a| | |led [[r g] b] [a|]|];
    reflexivity.
Qed.

(** What a sequence of calls sends is the encodings of its commands, after
    what was sent before. *)
Lemma perform_all_encode (calls : list FilelikeController.call) :
  forall f,
  FilelikeController.perform_all f calls
  = (bytes ← encode_all (map FilelikeController.command_of calls);
     Ok (f ++ bytes)).
Proof.
  induction calls as [|c calls IH]; intros f; simpl.
  - rewrite app_nil_r. reflexivity.
  - rewrite perform_send. unfold FilelikeController._send.
    destruct (to_str (FilelikeController.command_of c)) as [s|e]; simpl;
      [|reflexivity].
    rewrite IH.
    destruct (encode_all (map FilelikeController.command_of calls)) as [t|e];
      simpl; [|reflexivity].
    rewrite app_assoc. reflexivity.
Qed.

(** One decodable command, encoded, is read back as itself, and the reader
    waits for an opcode again. *)
Lemma net_decodable_roundtrip (c : Command) :
  net_decodable c ->
  exists bytes ys,
    to_str c = Ok bytes /\
    feed NetProtocol.send NetProtocol.AtOpcode bytes
    = (ys, Running NetProtocol.AtOpcode) /\
    yielded ys = [c].
Proof.
  destruct c as [| | |led [[[c0 c1] c2] c3]| |]; simpl; try contradiction.
  - intros _. exists [0xff], [Some StrobeCommand]. repeat split.
  - intros (Hled & H0 & H1 & H2 & H3).
    destruct (SetLed_roundtrip led c0 c1 c2 c3 Hled H0 H1 H2 H3)
      as (bytes & Henc & Hread).
    exists bytes, (repeat None 6 ++ [Some (SetLedCommand led (c0, c1, c2, c3))]).
    split; [exact Henc|]. split; [exact Hread | reflexivity].
Qed.

Lemma net_stream_roundtrip (cmds : list Command) :
  Forall net_decodable cmds ->
  exists bytes ys,
    encode_all cmds = Ok bytes /\
    feed NetProtocol.send NetProtocol.AtOpcode bytes
    = (ys, Running NetProtocol.AtOpcode) /\
    yielded ys = cmds.
Proof.
  induction 1 as [|c cmds Hc _ (t & ys2 & Ht & Hread2 & Hy2)].
  - exists [], []. repeat split.
  - destruct (net_decodable_roundtrip c Hc) as (s & ys1 & Hs & Hread1 & Hy1).
    exists (s ++ t), (ys1 ++ ys2). split; [|split].
    + simpl. rewrite Hs. simpl. rewrite Ht. reflexivity.
    + rewrite (feed_running _ _ _ _ _ _ Hread1), Hread2. reflexivity.
    + rewrite yielded_app, Hy1, Hy2. reflexivity.
Qed.

(** X4.  Whatever was sent before, a sequence of [set_rgb], [set_rgba],
    [set_rgb_a] and [strobe] calls with 16-bit LED numbers and 8-bit
    channels sends bytes from which [NetProtocol.read] yields exactly the
    commands of the calls, in order, and after which it waits for the next
    opcode. *)
Theorem X4_controller_stream_decodes
  (f : list Z) (calls : list FilelikeController.call) :
  Forall (fun c => net_decodable (FilelikeController.command_of c)) calls ->
  exists bytes,
    FilelikeController.perform_all f calls = Ok (f ++ bytes) /\
    yielded (fst (NetProtocol.read bytes))
    = map FilelikeController.command_of calls /\
    snd (NetProtocol.read bytes) = Running NetProtocol.AtOpcode.
Proof.
  intros Hcalls.
  destruct (net_stream_roundtrip (map FilelikeController.command_of calls))
    as (bytes & ys & Henc & Hread & Hy).
  { apply Forall_map. exact Hcalls. }
  exists bytes. rewrite perform_all_encode, Henc.
  unfold NetProtocol.read. rewrite Hread. repeat split. exact Hy.
Qed.

Lemma X4_controller_stream_decodes_witness :
  exists bytes,
    FilelikeController.perform_all [9]
      [FilelikeController.Set_rgb 1 (255, 0, 0) None;
       FilelikeController.Strobe;
       FilelikeController.Set_rgba 300 (1, 2, 3, 4)]
    = Ok ([9] ++ bytes) /\
    yielded (fst (NetProtocol.read bytes))
    = [SetLedCommand 1 (255, 0, 0, 255); StrobeCommand;
       SetLedCommand 300 (1, 2, 3, 4)] /\
    snd (NetProtocol.read bytes) = Running NetProtocol.AtOpcode.
Proof.
  apply (X4_controller_stream_decodes [9]
           [FilelikeController.Set_rgb 1 (255, 0, 0) None;
            FilelikeController.Strobe;
            FilelikeController.Set_rgba 300 (1, 2, 3, 4)]).
  repeat constructor; simpl; unfold is_word, is_byte; lia.
Defined.

(** One byte resumed into [NetProtocol.read]: either the byte joins the
    bytes consumed since the last command, or a command is yielded whose
    encoding is these bytes. *)
Lemma net_send_pending (s s' : NetProtocol.pc) (c : Z) (y : option Command) :
  Forall is_byte (net_pending s ++ [c]) ->
  NetProtocol.send s c = Ok (s', y) ->
  match y with
  | None => net_pending s' = net_pending s ++ [c]
  | Some cmd => to_str cmd = Ok (net_pending s ++ [c]) /\ net_pending s' = []
  end.
Proof.
  intros Hbytes. destruct s as [|got|got]; simpl.
  - destruct (Z.eqb_spec c 1) as [->|_]; [intros [= <- <-]; reflexivity|].
    destruct (Z.eqb_spec c 255) as [->|_];
      [intros [= <- <-]; split; reflexivity|].
    destruct (Z.eqb_spec c 2) as [->|_]; [intros [= <- <-]; reflexivity|].
    discriminate.
  - simpl in Hbytes. apply Forall_cons in Hbytes as [_ Hbytes].
    destruct got as [|hi [|lo [|c0 [|c1 [|c2 [|c3 tl]]]]]]; simpl;
      try (intros [= <- <-]; reflexivity).
    + intros [= <- <-]. split; [|reflexivity].
      repeat (apply Forall_cons in Hbytes as [? Hbytes]).
      simpl. rewrite join_hi, join_lo by assumption.
      rewrite !chr_byte by assumption. reflexivity.
    + destruct tl; simpl; intros [= <- <-]; reflexivity.
  - destruct (length (got ++ [c]) =? 16)%nat; [discriminate|].
    intros [= <- <-]. reflexivity.
Qed.

Lemma net_feed_pending (cs : list Z) :
  forall (s s' : NetProtocol.pc) (ys : list (option Command)),
  Forall is_byte (net_pending s ++ cs) ->
  feed NetProtocol.send s cs = (ys, Running s') ->
  exists bytes,
    encode_all (yielded ys) = Ok bytes /\
    net_pending s ++ cs = bytes ++ net_pending s'.
Proof.
  induction cs as [|c cs IH]; intros s s' ys Hbytes; simpl.
  - intros [= <- <-]. exists []. rewrite app_nil_r. split; reflexivity.
  - destruct (NetProtocol.send s c) as [[s1 y]|e] eqn:Hsend; [|discriminate].
    destruct (feed NetProtocol.send s1 cs) as [ys1 o] eqn:Hfeed.
    intros [= <- ->].
    assert (Hsplit : net_pending s ++ c :: cs = (net_pending s ++ [c]) ++ cs)
      by (rewrite <- app_assoc; reflexivity).
    rewrite Hsplit in Hbytes |- *.
    pose proof Hbytes as Hb. apply Forall_app in Hb as [Hb1 Hb2].
    pose proof (net_send_pending _ _ _ _ Hb1 Hsend) as Hstep.
    destruct y as [cmd|].
    + destruct Hstep as [Henc Hp1].
      destruct (IH s1 s' ys1) as (t & Ht & Heq); [|exact Hfeed|].
      { rewrite Hp1. exact Hb2. }
      exists ((net_pending s ++ [c]) ++ t). split.
      * change (yielded (Some cmd :: ys1)) with (cmd :: yielded ys1).
        simpl. rewrite Henc. simpl. rewrite Ht. reflexivity.
      * rewrite Hp1 in Heq. simpl in Heq. rewrite Heq, app_assoc. reflexivity.
    + destruct (IH s1 s' ys1) as (t & Ht & Heq); [|exact Hfeed|].
      { rewrite Hstep. exact Hbytes. }
      exists t. split; [exact Ht|]. rewrite <- Hstep. exact Heq.
Qed.

(** X5.  Decoding then encoding gives the input back: when
    [NetProtocol.read] has consumed a sequence of bytes without raising,
    the encodings of the commands it yielded, in order, followed by the
    bytes it has consumed since the last of them, are that sequence. *)
Theorem X5_net_decode_encode
  (cs : list Z) (ys : list (option Command)) (s' : NetProtocol.pc) :
  Forall is_byte cs ->
  NetProtocol.read cs = (ys, Running s') ->
  exists bytes,
    encode_all (yielded ys) = Ok bytes /\
    cs = bytes ++ net_pending s'.
Proof.
  intros Hbytes Hread.
  apply (net_feed_pending cs NetProtocol.AtOpcode s' ys); assumption.
Qed.

Lemma X5_net_decode_encode_witness :
  exists bytes,
    encode_all [StrobeCommand; SetLedCommand 258 (3, 4, 5, 6)] = Ok bytes /\
    [0xff; 0x01; 1; 2; 3; 4; 5; 6; 0x01; 7] = bytes ++ [0x01; 7].
Proof.
  apply (X5_net_decode_encode [0xff; 0x01; 1; 2; 3; 4; 5; 6; 0x01; 7]
           [Some StrobeCommand; None; None; None; None; None; None;
            Some (SetLedCommand 258 (3, 4, 5, 6)); None; None]
           (NetProtocol.InSetLed [7])).
  - repeat constructor; unfold is_byte; lia.
  - reflexivity.
Defined.

Lemma net_authenticate_raises (cs : list Z) :
  forall got,
  (length got < 16)%nat -> (16 <= length got + length cs)%nat ->
  feed NetProtocol.send (NetProtocol.InAuthenticate got) cs
  = (repeat None (15 - length got), Raised AttributeError).
Proof.
  induction cs as [|c cs IH]; intros got Hlt Hge; simpl in *; [lia|].
  rewrite length_app. simpl.
  destruct (Nat.eqb_spec (length got + 1) 16) as [Heq|Hne].
  - replace (15 - length got)%nat with 0%nat by lia. reflexivity.
  - rewrite IH by (rewrite ?length_app; simpl; lia).
    rewrite length_app. simpl.
    replace (15 - length got)%nat with (S (15 - (length got + 1)))%nat by lia.
    reflexivity.
Qed.

Lemma perform_all_extends (calls : list FilelikeController.call)
  (f bytes : list Z) :
  FilelikeController.perform_all f calls = Ok bytes ->
  exists rest, bytes = f ++ rest.
Proof.
  rewrite perform_all_encode.
  destruct (encode_all (map FilelikeController.command_of calls)) as [t|e];
    simpl; [|discriminate].
  intros [= <-]. exists t. reflexivity.
Qed.

(** X6.  [NetProtocol.read] cannot read what a [FilelikeController] sends:
    the controller starts by sending the [AuthenticateCommand], and for
    every token and every sequence of calls that follows, the reader yields
    no command and raises [AttributeError] on the sixteenth byte of the
    token. *)
Theorem X6_controller_session_not_decoded
  (token : list Z) (calls : list FilelikeController.call)
  (f bytes : list Z) :
  FilelikeController.init [] token = Ok f ->
  FilelikeController.perform_all f calls = Ok bytes ->
  NetProtocol.read bytes = (repeat None 16, Raised AttributeError).
Proof.
  intros Hinit Hcalls.
  apply perform_all_extends in Hcalls as [rest ->].
  unfold FilelikeController.init, FilelikeController._send in Hinit.
  simpl in Hinit. injection Hinit as <-.
  unfold NetProtocol.read. simpl.
  rewrite net_authenticate_raises; [reflexivity | simpl; lia |].
  simpl. unfold ljust. rewrite !length_app, repeat_length. lia.
Qed.

Lemma X6_controller_session_not_decoded_witness :
  NetProtocol.read
    (0x02 :: [115; 105; 120] ++ repeat 0 13 ++ [0x01; 0; 1; 255; 0; 0; 255; 0xff])
  = (repeat None 16, Raised AttributeError).
Proof.
  apply (X6_controller_session_not_decoded [115; 105; 120]
           [FilelikeController.Set_rgb 1 (255, 0, 0) None;
            FilelikeController.Strobe]
           (0x02 :: [115; 105; 120] ++ repeat 0 13)).
  - reflexivity.
  - reflexivity.
Defined.

(** ** [BusProtocol.read] on arbitrary and on well-formed streams *)

Section BusStreams.
Import BusProtocol.
Variable lens : list nat.

(** The unescaping loop (lines 126-136) appends one value for each value
    that is not an escape byte. *)
Lemma unescape_length (values : list Z) :
  forall escaped acc unescaped,
  unescape_loop escaped acc values = Ok unescaped ->
  length unescaped
  = (length acc
     + length (filter (fun val => val <> ESCAPE_BYTE) values))%nat.
Proof.
  induction values as [|val values IH]; intros esc acc u; simpl.
  - intros [= <-]. lia.
  - destruct (Z.eqb_spec val ESCAPE_BYTE) as [->|Hne].
    + intros H. rewrite (IH _ _ _ H).
      rewrite filter_cons_False by (intros Hc; exact (Hc eq_refl)).
      reflexivity.
    + rewrite filter_cons_True by exact Hne. simpl.
      destruct esc.
      * destruct (UNESCAPE val) as [u0|e]; simpl; [|discriminate].
        intros H. rewrite (IH _ _ _ H), length_app. simpl. lia.
      * intros H. rewrite (IH _ _ _ H), length_app. simpl. lia.
Qed.

Lemma while_continue_reading_consistent (addr : Z) (values : list Z)
  (n : nat) (s' : pc) (y : option Command) :
  addr <> ESCAPE_BYTE -> addr <> START_OF_CMD_MARKER ->
  addr <> STROBE_PADDR ->
  py_getitem lens addr
  = Ok (length (filter (fun val => val <> ESCAPE_BYTE) values) + n)%nat ->
  while_continue_reading addr values n = Ok (s', y) ->
  bus_consistent lens s' /\ from_option (bus_fits lens) True y.
Proof.
  intros He Hs Hp Hlen. destruct n as [|more]; simpl.
  - unfold yield_command.
    destruct (unescape_loop false [] values) as [u|e] eqn:Hu; simpl;
      [|discriminate].
    intros [= <- <-]. split; [exact I|]. simpl.
    repeat split; try assumption.
    rewrite Hlen, (unescape_length _ _ _ _ Hu). simpl. f_equal. lia.
  - intros [= <- <-]. split; [|exact I]. simpl.
    repeat split; try assumption. rewrite Hlen. f_equal. lia.
Qed.

Lemma send_consistent (s s' : pc) (c : Z) (y : option Command) :
  bus_consistent lens s ->
  send lens s c = Ok (s', y) ->
  bus_consistent lens s' /\ from_option (bus_fits lens) True y.
Proof.
  destruct s as [| | |addr values nv more|]; simpl.
  - intros _. destruct (c =? 85); intros [= <- <-]; split; exact I.
  - intros _.
    destruct (Z.eqb_spec c ESCAPE_BYTE) as [|He];
      [intros [= <- <-]; split; exact I|].
    destruct (Z.eqb_spec c START_OF_CMD_MARKER) as [|Hs]; [discriminate|].
    unfold dispatch.
    destruct (Z.eqb_spec c STROBE_PADDR) as [|Hp];
      [intros [= <- <-]; split; exact I|].
    destruct (Z.eqb_spec c START_OF_CMD_MARKER); [discriminate|].
    destruct (py_getitem lens c) as [len|e] eqn:Hn; simpl; [|discriminate].
    apply while_continue_reading_consistent; assumption.
  - discriminate.
  - intros (He & Hs & Hp & Hlen). destruct more as [|more'].
    + unfold end_of_batch.
      destruct (decide (START_OF_CMD_MARKER ∈ nv ++ [c])); [discriminate|].
      apply while_continue_reading_consistent; try assumption.
      rewrite Hlen. f_equal.
      pose proof (escapes_plus_others (nv ++ [c])) as Hsplit.
      rewrite (filter_app _ values (nv ++ [c])), (length_app (filter _ values)).
      rewrite (length_app nv [c]) in Hsplit. simpl in Hsplit. lia.
    + intros [= <- <-]. split; [|exact I]. simpl.
      repeat split; try assumption. rewrite Hlen, length_app. simpl.
      f_equal. lia.
  - intros _. destruct (c =? 85); intros [= <- <-]; split; exact I.
Qed.

Lemma feed_consistent (cs : list Z) :
  forall s ys o,
  bus_consistent lens s ->
  feed (send lens) s cs = (ys, o) ->
  Forall (bus_fits lens) (yielded ys).
Proof.
  induction cs as [|c cs IH]; intros s ys o Hs; simpl.
  - intros [= <- _]. constructor.
  - destruct (send lens s c) as [[s1 y]|e] eqn:Hsend.
    + destruct (feed (send lens) s1 cs) as [ys1 o1] eqn:Hfeed.
      intros [= <- _].
      destruct (send_consistent _ _ _ _ Hs Hsend) as [Hs1 Hy].
      pose proof (IH _ _ _ Hs1 Hfeed) as Hrest.
      destruct y as [cmd|]; [|exact Hrest].
      change (yielded (Some cmd :: ys1)) with (cmd :: yielded ys1).
      constructor; assumption.
    + intros [= <- _]. constructor.
Qed.

(** Bytes that belong to no frame are passed over, after a command as well
    as before the first one. *)
Lemma bus_garbage (G : list Z) :
  forall s, s = Skipping \/ s = AfterCommand ->
  START_OF_CMD_MARKER ∉ G ->
  exists s', (s' = Skipping \/ s' = AfterCommand) /\
    feed (send lens) s G = (repeat None (length G), Running s').
Proof.
  induction G as [|g G IH]; intros s Hs HG.
  - exists s. split; [exact Hs | reflexivity].
  - apply not_elem_of_cons in HG as [Hg HG].
    destruct (IH Skipping (or_introl eq_refl) HG) as (s' & Hs' & Hfeed).
    exists s'. split; [exact Hs'|].
    assert (Hsend : send lens s g = Ok (Skipping, None)).
    { destruct Hs as [-> | ->]; simpl;
        (destruct (Z.eqb_spec g 85) as [Heq|_]; [|reflexivity]);
        exfalso; apply Hg; symmetry; exact Heq. }
    simpl. rewrite Hsend, Hfeed. reflexivity.
Qed.

Lemma bus_to_start (G : list Z) (s : pc) :
  s = Skipping \/ s = AfterCommand ->
  START_OF_CMD_MARKER ∉ G ->
  feed (send lens) s (G ++ [START_OF_CMD_MARKER])
  = (repeat None (length G + 1), Running AtAddr).
Proof.
  intros Hs HG. destruct (bus_garbage G s Hs HG) as (s' & Hs' & Hfeed).
  rewrite (feed_running _ _ _ _ _ _ Hfeed), repeat_app.
  destruct Hs' as [-> | ->]; reflexivity.
Qed.

(** One command that fits the configuration, from its address on. *)
Lemma bus_decode_frame (c : Command) :
  bus_fits lens c ->
  exists ys,
    feed (send lens) AtAddr (tail (bus_wire c)) = (ys, Running AfterCommand) /\
    yielded ys = [c].
Proof.
  destruct c as [| |addr payload| | |]; simpl; try contradiction.
  - intros _. exists [Some BusStrobeCommand]. split; reflexivity.
  - intros (He & Hs & Hp & Hlen).
    exists (repeat None (length (escape payload))
            ++ [Some (BusSetChannelsCommand addr payload)]).
    split; [|rewrite yielded_app, yielded_repeat_None; reflexivity].
    destruct (Z.eqb_spec addr ESCAPE_BYTE); [contradiction|].
    destruct (Z.eqb_spec addr START_OF_CMD_MARKER); [contradiction|].
    unfold dispatch.
    destruct (Z.eqb_spec addr STROBE_PADDR); [contradiction|].
    destruct (Z.eqb_spec addr START_OF_CMD_MARKER); [contradiction|].
    rewrite Hlen. simpl.
    destruct payload as [|p payload'] eqn:Hpl; [reflexivity|].
    rewrite <- Hpl in *.
    assert (Hcount : length (filter (fun val => val <> ESCAPE_BYTE)
                               (escape payload))
                     = S (length payload'))
      by (rewrite escape_others, Hpl; reflexivity).
    replace (while_continue_reading addr [] (length payload))
      with (Ok (A := pc * option Command)
              (InValues addr [] [] (length payload'), None))
      by (rewrite Hpl; reflexivity).
    rewrite (read_run lens addr (length (escape payload)) (escape payload)
               [] (length payload') (Nat.le_refl _) Hcount
               (escape_no_start payload) (escape_last payload)).
    unfold yield_command. simpl. rewrite (unescape_escape payload []). simpl.
    assert (Hpos : (0 < length (escape payload))%nat)
      by (rewrite escape_length, Hpl; simpl; lia).
    destruct (length (escape payload)) as [|k]; [lia|].
    simpl. rewrite Nat.sub_0_r. reflexivity.
Qed.

Lemma bus_wire_start (c : Command) :
  bus_fits lens c -> bus_wire c = START_OF_CMD_MARKER :: tail (bus_wire c).
Proof. destruct c; simpl; try contradiction; reflexivity. Qed.

Lemma bus_decode_stream (items : list (list Z * Command)) (rest : list Z) :
  forall s, s = Skipping \/ s = AfterCommand ->
  Forall (fun item => (START_OF_CMD_MARKER ∉ fst item)
                      /\ bus_fits lens (snd item)) items ->
  START_OF_CMD_MARKER ∉ rest ->
  exists ys s',
    feed (send lens) s (bus_stream items ++ rest) = (ys, Running s') /\
    yielded ys = map snd items.
Proof.
  induction items as [|[G c] items IH]; intros s Hs Hitems Hrest.
  - destruct (bus_garbage rest s Hs Hrest) as (s' & _ & Hfeed).
    exists (repeat None (length rest)), s'. split; [exact Hfeed|].
    apply yielded_repeat_None.
  - apply Forall_cons in Hitems as [[HG Hc] Hitems]. simpl in HG, Hc.
    destruct (bus_decode_frame c Hc) as (ys1 & Hframe & Hy1).
    destruct (IH AfterCommand (or_intror eq_refl) Hitems Hrest)
      as (ys2 & s' & Hfeed2 & Hy2).
    exists (repeat None (length G + 1) ++ ys1 ++ ys2), s'. split.
    + assert (Heq : bus_stream ((G, c) :: items) ++ rest
                    = (G ++ [START_OF_CMD_MARKER])
                      ++ tail (bus_wire c) ++ (bus_stream items ++ rest)).
      { unfold bus_stream. simpl. rewrite (bus_wire_start c Hc) at 1.
        rewrite <- !app_assoc. reflexivity. }
      rewrite Heq.
      rewrite (feed_running _ _ _ _ _ _ (bus_to_start G s Hs HG)).
      rewrite (feed_running _ _ _ _ _ _ Hframe). simpl.
      rewrite Hfeed2. reflexivity.
    + rewrite !yielded_app, yielded_repeat_None, Hy1, Hy2. reflexivity.
Qed.
End BusStreams.

(** X7.  Whatever bytes it is given, [BusProtocol.read] yields only bus
    commands that fit its configuration: strobes, and channel commands
    whose address is none of the bytes [0x54], [0x55] and [0xFE] and whose
    number of channel values is exactly the configured length of the
    module. *)
Theorem X7_bus_yields_fit (lens : list nat) (cs : list Z) :
  Forall (bus_fits lens) (yielded (fst (BusProtocol.read lens cs))).
Proof.
  unfold BusProtocol.read.
  destruct (feed (BusProtocol.send lens) BusProtocol.Skipping cs)
    as [ys o] eqn:Hfeed.
  apply (feed_consistent lens cs BusProtocol.Skipping ys o I Hfeed).
Qed.

(** X8.  [BusProtocol.read] decodes every well-formed stream: when each
    command fits the configuration and travels as the start marker, its
    address and its escaped channel values, and the bytes before, between
    and after the frames hold no start marker, the reader yields exactly
    the commands, in order, and raises nothing. *)
Theorem X8_bus_stream_decodes
  (lens : list nat) (items : list (list Z * Command)) (rest : list Z) :
  Forall (fun item => ~ In START_OF_CMD_MARKER (fst item)
                      /\ bus_fits lens (snd item)) items ->
  ~ In START_OF_CMD_MARKER rest ->
  yielded (fst (BusProtocol.read lens (bus_stream items ++ rest)))
  = map snd items /\
  exists s, snd (BusProtocol.read lens (bus_stream items ++ rest)) = Running s.
Proof.
  intros Hitems Hrest.
  destruct (bus_decode_stream lens items rest BusProtocol.Skipping)
    as (ys & s' & Hfeed & Hy).
  - left. reflexivity.
  - eapply Forall_impl; [exact Hitems|]. simpl. intros item [HG Hc].
    split; [|exact Hc]. intros Hin. apply HG, list_elem_of_In, Hin.
  - intros Hin. apply Hrest, list_elem_of_In, Hin.
  - unfold BusProtocol.read. rewrite Hfeed. simpl.
    split; [exact Hy | exists s'; reflexivity].
Qed.

Lemma X8_bus_stream_decodes_witness :
  yielded (fst (BusProtocol.read [2%nat; 1%nat]
     (bus_stream [([9; 8], BusSetChannelsCommand 0 [0x54; 0x55]);
                  ([], BusStrobeCommand);
                  ([7], BusSetChannelsCommand 1 [3])] ++ [1])))
  = [BusSetChannelsCommand 0 [0x54; 0x55]; BusStrobeCommand;
     BusSetChannelsCommand 1 [3]].
Proof.
  apply (X8_bus_stream_decodes [2%nat; 1%nat]
           [([9; 8], BusSetChannelsCommand 0 [0x54; 0x55]);
            ([], BusStrobeCommand);
            ([7], BusSetChannelsCommand 1 [3])] [1]).
  - repeat constructor; simpl; try discriminate;
      intros H; repeat (destruct H as [H|H]; [discriminate H|]); exact H.
  - simpl. intros [H|[]]. discriminate H.
Defined.

(** ** [Controller.read_frames] and [Controller.run] on whole streams *)

Section FrameStreams.
Import Controller.

Lemma for_loop_frames (bodies : list (list Z)) (pending : list Z) :
  for_loop (mk [] STATE_NORMAL)
    (concat (map (fun body => escape body ++ [START_MARK]) bodies)
     ++ escape pending)
  = (bodies, Running (mk pending STATE_NORMAL)).
Proof.
  induction bodies as [|body bodies IH]; simpl.
  - apply (for_loop_escape [] pending).
  - rewrite <- app_assoc.
    rewrite (for_loop_running _ _ _ _ _ (for_loop_frame [] body)), IH.
    reflexivity.
Qed.


(** Every start marker the reader gets through either opens the first
    frame or closes a frame. *)
Lemma for_loop_count (bs : list Z) :
  forall s s' frames,
  for_loop s bs = (frames, Running s') ->
  (length (filter (fun b => b = START_MARK) bs)
   + match state s with STATE_IGNORE => 0 | _ => 1 end)%nat
  = (length frames
     + match state s' with STATE_IGNORE => 0 | _ => 1 end)%nat.
Proof.
  induction bs as [|b bs IH]; intros s s' frames; simpl.
  - intros [= <- <-]. reflexivity.
  - destruct (loop_body s b) as [[s1 y]|e1] eqn:Hb; [|discriminate].
    destruct (for_loop s1 bs) as [fs o] eqn:Hrest. intros [= <- ->].
    specialize (IH _ _ _ Hrest).
    destruct s as [buf st]. unfold loop_body in Hb. simpl in Hb |- *.
    rewrite filter_cons.
    destruct st.
    + destruct (Z.eqb_spec b START_MARK) as [->|Hne];
        injection Hb as <- <-; simpl in IH.
      * rewrite decide_True by reflexivity. simpl. lia.
      * rewrite decide_False by exact Hne. simpl in *. lia.
    + destruct (Z.eqb_spec b ESCAPE_MARK) as [->|Hesc].
      * injection Hb as <- <-. simpl in IH.
        rewrite decide_False by discriminate. lia.
      * destruct (Z.eqb_spec b START_MARK) as [->|Hne];
          injection Hb as <- <-; simpl in IH.
        -- rewrite decide_True by reflexivity. simpl. lia.
        -- rewrite decide_False by exact Hne. lia.
    + destruct (Z.eqb_spec b ESCAPE_ESCAPED) as [->|H0].
      * injection Hb as <- <-. simpl in IH.
        rewrite decide_False by discriminate. lia.
      * destruct (Z.eqb_spec b START_ESCAPED) as [->|H1]; [|discriminate].
        injection Hb as <- <-. simpl in IH.
        rewrite decide_False by discriminate. lia.
Qed.


End FrameStreams.

(** X9.  [read_frames] reads back any number of frames: after bytes
    without a start marker and one start marker, the escaped bodies, each
    closed by a start marker, are yielded unescaped and in order, and an
    escaped body that is not closed yet is held, unescaped, in the
    buffer. *)
Theorem X9_read_frames_stream
  (A : list Z) (bodies : list (list Z)) (pending : list Z) :
  ~ In Controller.START_MARK A ->
  Controller.read_frames
    (A ++ [0x55]
     ++ concat (map (fun body => escape body ++ [0x55]) bodies)
     ++ escape pending)
  = (bodies, Running (Controller.mk pending Controller.STATE_NORMAL)).
Proof.
  intros HA. unfold Controller.read_frames.
  rewrite (for_loop_running _ _ _ _ _ (for_loop_ignore [] A HA)).
  simpl. pose proof (for_loop_frames bodies pending) as H.
  unfold Controller.START_MARK in H. rewrite H. reflexivity.
Qed.

Lemma X9_read_frames_stream_witness :
  Controller.read_frames
    ([1; 2] ++ [0x55]
     ++ concat (map (fun body => escape body ++ [0x55])
                    [[0; 0x54]; []; [0xfe]; [3; 0x55; 4]])
     ++ escape [0x54])
  = ([[0; 0x54]; []; [0xfe]; [3; 0x55; 4]],
     Running (Controller.mk [0x54] Controller.STATE_NORMAL)).
Proof.
  apply (X9_read_frames_stream [1; 2] [[0; 0x54]; []; [0xfe]; [3; 0x55; 4]]
           [0x54]).
  simpl. intros [H|[H|[]]]; discriminate H.
Defined.

(** X10.  When [read_frames] gets through a stream without raising, it has
    yielded one frame for every start marker of the stream but the first:
    the number of frames, plus one once a start marker has been seen, is
    the number of bytes [0x55] in the stream. *)
Theorem X10_one_frame_per_start
  (bs : list Z) (frames : list (list Z)) (s : Controller.locals) :
  Controller.read_frames bs = (frames, Running s) ->
  length (filter (fun b => b = Controller.START_MARK) bs)
  = (length frames
     + match Controller.state s with
       | Controller.STATE_IGNORE => 0
       | _ => 1
       end)%nat.
Proof.
  intros H. apply for_loop_count in H. simpl in H. lia.
Qed.

Lemma X10_one_frame_per_start_witness :
  length (filter (fun b => b = Controller.START_MARK)
            [9; 0x55; 1; 0x55; 0x55; 0x54; 0x01; 0x55; 7])
  = (length [[1]; []; [0x55]] + 1)%nat.
Proof.
  apply (X10_one_frame_per_start [9; 0x55; 1; 0x55; 0x55; 0x54; 0x01; 0x55; 7]
           [[1]; []; [0x55]]
           (Controller.mk [7] Controller.STATE_NORMAL)).
  reflexivity.
Defined.


(** ** The model after [__init__] and after [set_value] *)

Section ModelMore.
Import Model.

Lemma new_row_cells (n : nat) :
  forall h,
  snd (new_row h n) = seq (length h) n /\
  length (fst (new_row h n)) = (length h + n)%nat.
Proof.
  induction n as [|n IH]; intros h; simpl.
  - split; [reflexivity | lia].
  - destruct (IH (h ++ [[0; 0; 0]])) as [Hc Hl].
    destruct (new_row (h ++ [[0; 0; 0]]) n) as [h2 ls]. simpl in *.
    rewrite length_app in Hc, Hl. simpl in Hc, Hl.
    split; [|lia]. rewrite Hc. f_equal. f_equal. lia.
Qed.

Lemma new_rows_cells (k n : nat) :
  forall h,
  cells (snd (new_rows h k n)) = seq (length h) (k * n) /\
  length (fst (new_rows h k n)) = (length h + k * n)%nat.
Proof.
  induction k as [|k IH]; intros h; simpl.
  - split; [reflexivity | lia].
  - destruct (new_row_cells n h) as [Hc1 Hl1].
    destruct (new_row h n) as [h1 row]. simpl in *.
    destruct (IH h1) as [Hc2 Hl2].
    destruct (new_rows h1 k n) as [h2 rows]. simpl in *.
    split; [|lia]. unfold cells in *. simpl.
    rewrite Hc1, Hc2, Hl1, seq_app. reflexivity.
Qed.

Lemma new_row_contents (n : nat) :
  forall h,
  map (fun l => fst (new_row h n) !!! l) (snd (new_row h n))
  = repeat [0; 0; 0] n.
Proof.
  induction n as [|n IH]; intros h; simpl; [reflexivity|].
  specialize (IH (h ++ [[0; 0; 0]])).
  destruct (new_row_ok n (h ++ [[0; 0; 0]])) as [[ext He] _].
  destruct (new_row (h ++ [[0; 0; 0]]) n) as [h2 ls]. simpl in *.
  rewrite IH. f_equal. rewrite He, <- app_assoc.
  apply list_lookup_total_middle. reflexivity.
Qed.

Lemma new_rows_contents (k n : nat) :
  forall h,
  contents (fst (new_rows h k n)) (snd (new_rows h k n))
  = repeat (repeat [0; 0; 0] n) k.
Proof.
  induction k as [|k IH]; intros h; simpl; [reflexivity|].
  pose proof (new_row_contents n h) as Hrow.
  destruct (new_row_ok n h) as [_ Hb1].
  destruct (new_row h n) as [h1 row]. simpl in *.
  specialize (IH h1).
  destruct (new_rows_ok k n h1) as [[ext He] _].
  destruct (new_rows h1 k n) as [h2 rows]. simpl in *.
  unfold contents in *. simpl. rewrite IH. f_equal.
  rewrite He, row_app; [exact Hrow|].
  eapply Forall_impl; [exact Hb1|]. simpl. intros; lia.
Qed.

(** Python's [l[i]] and [l[i] = x] for an index that is not negative. *)
Lemma py_getitem_nonneg {A : Type} (l : list A) (i : Z) :
  0 <= i ->
  py_getitem l i
  = match l !! Z.to_nat i with Some x => Ok x | None => Raise IndexError end.
Proof.
  intros Hi. unfold py_getitem, py_index.
  destruct (Z.leb_spec 0 i); [|lia]. simpl.
  destruct (Z.ltb_spec i (Z.of_nat (length l))) as [Hlt|Hge].
  - reflexivity.
  - destruct (Z.ltb_spec i 0); [lia|]. rewrite andb_false_r.
    rewrite lookup_ge_None_2 by lia. reflexivity.
Qed.

Lemma py_setitem_nonneg {A : Type} (l : list A) (i : Z) (x : A) :
  0 <= i ->
  py_setitem l i x
  = if decide (Z.to_nat i < length l)%nat
    then Ok (<[Z.to_nat i := x]> l) else Raise IndexError.
Proof.
  intros Hi. unfold py_setitem, py_index.
  destruct (Z.leb_spec 0 i); [|lia]. simpl.
  destruct (Z.ltb_spec i (Z.of_nat (length l))) as [Hlt|Hge].
  - rewrite decide_True by lia. reflexivity.
  - destruct (Z.ltb_spec i 0); [lia|]. rewrite andb_false_r.
    rewrite decide_False by lia. reflexivity.
Qed.

Lemma alter_same {A : Type} (f : A -> A) (l : list A) (i : nat) :
  (forall x, l !! i = Some x -> f x = x) -> alter f i l = l.
Proof.
  revert i. induction l as [|a l IH]; intros i Hf; [reflexivity|].
  destruct i as [|i]; simpl.
  - rewrite (Hf a eq_refl). reflexivity.
  - f_equal. apply IH. intros x Hx. apply Hf. exact Hx.
Qed.

(** Assigning into the object at position [j] of a row without repeated
    objects changes what the row shows at [j], and nothing else. *)
Lemma row_update (h : list (list Z)) (f : list Z -> list Z) (l : loc)
  (row : list loc) :
  forall j,
  NoDup row -> row !! j = Some l -> (l < length h)%nat ->
  map (fun l' => <[l := f (h !!! l)]> h !!! l') row
  = alter f j (map (fun l' => h !!! l') row).
Proof.
  induction row as [|l0 row IH]; intros j Hnd Hj Hl; [discriminate|].
  apply NoDup_cons in Hnd as [Hnotin Hnd].
  destruct j as [|j]; simpl in *.
  - injection Hj as ->. rewrite list_lookup_total_insert_eq by exact Hl.
    f_equal.
    clear IH. induction row as [|l1 row IHr]; [reflexivity|].
    apply not_elem_of_cons in Hnotin as [Hne Hnotin].
    apply NoDup_cons in Hnd as [_ Hnd]. simpl.
    rewrite list_lookup_total_insert_ne by exact Hne.
    rewrite IHr by assumption. reflexivity.
  - assert (Hne : l <> l0).
    { intros ->. apply Hnotin. eapply list_elem_of_lookup_2. exact Hj. }
    rewrite list_lookup_total_insert_ne by exact Hne.
    f_equal. apply IH; assumption.
Qed.

Lemma contents_update (h : list (list Z)) (f : list Z -> list Z) (l : loc)
  (buf : list (list loc)) :
  forall i row j,
  NoDup (cells buf) -> buf !! i = Some row -> row !! j = Some l ->
  (l < length h)%nat ->
  contents (<[l := f (h !!! l)]> h) buf
  = alter (alter f j) i (contents h buf).
Proof.
  induction buf as [|row0 buf IH]; intros i row j Hnd Hi Hj Hl;
    [discriminate|].
  unfold cells in Hnd. simpl in Hnd.
  apply NoDup_app in Hnd as (Hnd0 & Hdisj & Hnd).
  assert (Hin : l ∈ row) by (eapply list_elem_of_lookup_2; exact Hj).
  destruct i as [|i]; simpl in Hi.
  - injection Hi as ->. unfold contents. simpl. f_equal.
    + apply row_update; assumption.
    + apply (contents_insert h l _ buf). apply Hdisj. exact Hin.
  - assert (Hl0 : l ∉ row0).
    { intros Hin0. apply (Hdisj _ Hin0).
      apply (elem_of_cells buf row l); [|exact Hin].
      eapply list_elem_of_lookup_2. exact Hi. }
    unfold contents in *. simpl. f_equal.
    + clear -Hl0. induction row0 as [|l1 row0 IHr]; [reflexivity|].
      apply not_elem_of_cons in Hl0 as [Hne Hl0]. simpl.
      rewrite list_lookup_total_insert_ne by exact Hne.
      rewrite IHr by exact Hl0. reflexivity.
    + apply (IH i row j); assumption.
Qed.

(** What [set_value] does to the back buffer, for a module and a channel
    that are not negative. *)
Lemma set_value_back (m : t) (module channel value : Z) :
  wf m -> NoDup (cells (back_buffer m)) ->
  0 <= module -> 0 <= channel ->
  contents (heap (set_value m module channel value))
           (back_buffer (set_value m module channel value))
  = alter (alter (fun cell => <[Z.to_nat (channel mod 3) := value]> cell)
                 (Z.to_nat (channel / 3)))
          (Z.to_nat module)
          (contents (heap m) (back_buffer m)).
Proof.
  intros [Hdom _] Hnd Hmod Hch.
  apply Forall_app in Hdom as [Hback _].
  assert (Hdiv : 0 <= channel / 3) by (apply Z.div_pos; lia).
  assert (Hrem : 0 <= channel mod 3) by (apply Z.mod_pos_bound; lia).
  unfold set_value.
  rewrite (py_getitem_nonneg (back_buffer m) module Hmod).
  destruct (back_buffer m !! Z.to_nat module) as [row|] eqn:Hrow; simpl.
  2: { symmetry. apply alter_same. intros x Hx. unfold contents in Hx.
       rewrite list_lookup_fmap, Hrow in Hx. discriminate. }
  rewrite (py_getitem_nonneg row (channel / 3) Hdiv).
  destruct (row !! Z.to_nat (channel / 3)) as [l|] eqn:Hl; simpl.
  2: { symmetry. apply alter_same. intros x Hx. unfold contents in Hx.
       rewrite list_lookup_fmap, Hrow in Hx. injection Hx as <-.
       apply alter_same. intros y Hy.
       rewrite list_lookup_fmap, Hl in Hy. discriminate. }
  rewrite (py_setitem_nonneg _ _ value Hrem).
  assert (Hlt : (l < length (heap m))%nat).
  { rewrite Forall_forall in Hback. apply Hback.
    apply (elem_of_cells _ row); eapply list_elem_of_lookup_2; eassumption. }
  destruct (decide (Z.to_nat (channel mod 3) < length (heap m !!! l))%nat)
    as [Hk|Hk]; simpl.
  - apply (contents_update (heap m)
             (fun cell => <[Z.to_nat (channel mod 3) := value]> cell)
             l (back_buffer m) _ row); assumption.
  - symmetry. apply alter_same. intros x Hx. unfold contents in Hx.
    rewrite list_lookup_fmap, Hrow in Hx. injection Hx as <-.
    apply alter_same. intros y Hy.
    rewrite list_lookup_fmap, Hl in Hy. injection Hy as <-.
    apply list_insert_ge. lia.
Qed.
End ModelMore.

(** X12.  [Model.__init__] builds a model in which both buffers show
    [modules] rows of [leds_per_module] LEDs, all [[0, 0, 0]] (none when
    the number is negative); every LED of the back buffer is an object of
    its own, and the front buffer shares no object with the back buffer. *)
Theorem X12_init_all_dark (modules leds_per_module : Z) :
  Model.contents (Model.heap (Model.init modules leds_per_module))
                 (Model.back_buffer (Model.init modules leds_per_module))
  = repeat (repeat [0; 0; 0] (Z.to_nat leds_per_module)) (Z.to_nat modules) /\
  Model.contents (Model.heap (Model.init modules leds_per_module))
                 (Model.front_buffer (Model.init modules leds_per_module))
  = repeat (repeat [0; 0; 0] (Z.to_nat leds_per_module)) (Z.to_nat modules) /\
  NoDup (Model.cells (Model.back_buffer (Model.init modules leds_per_module))) /\
  Model.wf (Model.init modules leds_per_module).
Proof.
  split; [|split; [|split]]; [| | |apply init_wf].
  all: unfold Model.init.
  all: pose proof (new_rows_contents (Z.to_nat modules)
                     (Z.to_nat leds_per_module) []) as Hc.
  all: destruct (new_rows_cells (Z.to_nat modules)
                   (Z.to_nat leds_per_module) []) as [Hcells Hlen].
  all: destruct (Model.new_rows [] (Z.to_nat modules) (Z.to_nat leds_per_module))
         as [h1 back]; simpl in Hc, Hcells, Hlen.
  all: assert (Hback : Forall (fun l => (l < length h1)%nat) (Model.cells back))
         by (rewrite Hcells, Hlen; apply Forall_forall; intros l Hl;
             apply elem_of_seq in Hl; lia).
  all: destruct (deepcopy_ok h1 back Hback) as ([ext He] & _ & Hcopy).
  all: destruct (Model.deepcopy h1 back) as [h2 front]; simpl in *.
  - rewrite He, contents_app by exact Hback. exact Hc.
  - rewrite Hcopy. exact Hc.
  - rewrite Hcells. apply NoDup_seq.
Qed.

(** X13.  In a model whose LEDs are objects of their own, [set_value] with
    a module and a channel that are not negative replaces, in the back
    buffer, component [channel % 3] of LED [channel // 3] of that module
    by the value and changes nothing else there; when the module, the LED
    or the component does not exist, the back buffer shows what it showed
    before. *)
Theorem X13_set_value_back
  (m : Model.t) (module channel value : Z) :
  Model.wf m -> NoDup (Model.cells (Model.back_buffer m)) ->
  0 <= module -> 0 <= channel ->
  Model.contents (Model.heap (Model.set_value m module channel value))
                 (Model.back_buffer (Model.set_value m module channel value))
  = alter (alter (fun cell => <[Z.to_nat (channel mod 3) := value]> cell)
                 (Z.to_nat (channel / 3)))
          (Z.to_nat module)
          (Model.contents (Model.heap m) (Model.back_buffer m)).
Proof. apply set_value_back. Qed.

Lemma X13_set_value_back_witness :
  Model.contents (Model.heap (Model.set_value (Model.init 2 2) 1 4 9))
                 (Model.back_buffer (Model.set_value (Model.init 2 2) 1 4 9))
  = alter (alter (fun cell => <[Z.to_nat (4 mod 3) := 9]> cell)
                 (Z.to_nat (4 / 3)))
          (Z.to_nat 1)
          (Model.contents (Model.heap (Model.init 2 2))
                          (Model.back_buffer (Model.init 2 2))).
Proof.
  apply (X13_set_value_back (Model.init 2 2) 1 4 9).
  - unfold Model.wf. apply (bool_decide_unpack _). vm_compute. exact I.
  - apply (bool_decide_unpack _). vm_compute. exact I.
  - lia.
  - lia.
Defined.

(** ** Data frames and strobe frames in [Controller.run] *)

Section Frames.
Import Model.

Lemma contents_shape (h : list (list Z)) (buf : list (list loc)) :
  Forall (fun row => Forall (fun cell => length cell = 3%nat) row)
         (contents h buf) ->
  Forall (fun l => length (h !!! l) = 3%nat) (cells buf).
Proof.
  unfold contents, cells.
  induction buf as [|row buf IH]; simpl; intros H; [constructor|].
  apply Forall_cons in H as [Hrow H]. apply Forall_app. split; [|exact (IH H)].
  clear -Hrow. induction row as [|l row IHr]; [constructor|].
  simpl in Hrow. apply Forall_cons in Hrow as [Hl Hrow].
  constructor; [exact Hl | exact (IHr Hrow)].
Qed.

Lemma init_back (modules leds_per_module : Z) :
  contents (heap (init modules leds_per_module))
           (back_buffer (init modules leds_per_module))
  = repeat (repeat [0; 0; 0] (Z.to_nat leds_per_module)) (Z.to_nat modules)
  /\ NoDup (cells (back_buffer (init modules leds_per_module))).
Proof.
  pose proof (new_rows_contents (Z.to_nat modules)
                (Z.to_nat leds_per_module) []) as Hc.
  destruct (new_rows_cells (Z.to_nat modules)
              (Z.to_nat leds_per_module) []) as [Hcells Hlen].
  unfold init.
  destruct (new_rows [] (Z.to_nat modules) (Z.to_nat leds_per_module))
    as [h1 back]; simpl in Hc, Hcells, Hlen.
  assert (Hback : Forall (fun l => (l < length h1)%nat) (cells back))
    by (rewrite Hcells, Hlen; apply Forall_forall; intros l Hl;
        apply elem_of_seq in Hl; lia).
  destruct (deepcopy_ok h1 back Hback) as ([ext He] & _ & _).
  destruct (deepcopy h1 back) as [h2 front]; simpl in *.
  split; [|rewrite Hcells; apply NoDup_seq].
  rewrite He, contents_app by exact Hback. exact Hc.
Qed.

Lemma init_well_built (modules leds_per_module : Z) :
  well_built (init modules leds_per_module).
Proof.
  destruct (init_back modules leds_per_module) as [Hc Hnd].
  split; [apply init_wf|]. split; [exact Hnd|].
  apply contents_shape. rewrite Hc.
  apply Forall_forall. intros row Hrow.
  apply list_elem_of_In, repeat_spec in Hrow. subst row.
  apply Forall_forall. intros cell Hcell.
  apply list_elem_of_In, repeat_spec in Hcell. subst cell. reflexivity.
Qed.

(** [set_value] changes the length of no object. *)
Lemma set_value_lengths (m : t) (module channel value : Z) (l0 : loc) :
  length (heap (set_value m module channel value) !!! l0)
  = length (heap m !!! l0).
Proof.
  unfold set_value.
  destruct (py_getitem (back_buffer m) module) as [row|e]; [|reflexivity].
  simpl. destruct (py_getitem row (channel / 3)) as [l|e]; [|reflexivity].
  simpl. unfold py_setitem.
  destruct (py_index (heap m !!! l) (channel mod 3)) as [k|]; [|reflexivity].
  simpl. rewrite list_lookup_total_insert.
  case_decide as Hd; [|reflexivity].
  destruct Hd as [-> _]. apply length_insert.
Qed.

Lemma set_value_well_built (m : t) (module channel value : Z) :
  well_built m -> well_built (set_value m module channel value).
Proof.
  intros (Hwf & Hnd & Hshape).
  destruct (set_value_ok m module channel value Hwf) as (_ & Hb & _ & _ & Hwf').
  simpl in Hb. split; [exact Hwf'|]. rewrite Hb. split; [exact Hnd|].
  eapply Forall_impl; [exact Hshape|]. simpl. intros l Hl.
  rewrite set_value_lengths. exact Hl.
Qed.

Lemma strobe_well_built (m : t) : well_built m -> well_built (strobe m).
Proof.
  intros (Hwf & Hnd & Hshape).
  destruct (strobe_ok m Hwf) as (Hb & _ & _ & _ & Hkeep & Hwf').
  simpl in Hb. split; [exact Hwf'|]. rewrite Hb. split; [exact Hnd|].
  destruct Hwf as [Hdom _]. apply Forall_app in Hdom as [Hback _].
  rewrite Forall_forall in Hshape, Hback. apply Forall_forall. intros l Hl.
  rewrite <- (Hshape l Hl). f_equal.
  rewrite !list_lookup_total_alt, (Hkeep l (Hback l Hl)). reflexivity.
Qed.

Lemma fmap_alter_at {A B : Type} (f : A -> B) (g : A -> A) (h : B -> B)
  (l : list A) :
  forall i,
  (forall x, l !! i = Some x -> f (g x) = h (f x)) ->
  f <$> alter g i l = alter h i (f <$> l).
Proof.
  induction l as [|a l IH]; intros i Hx; [reflexivity|].
  destruct i as [|i]; simpl.
  - rewrite (Hx a eq_refl). reflexivity.
  - f_equal. apply IH. intros x Hl. apply Hx. exact Hl.
Qed.

(** In a row of LEDs of three components, component [k] of LED [j] is
    channel [3 * j + k]. *)
Lemma concat_alter_insert (v : Z) (k : nat) (row : list (list Z)) :
  forall j,
  Forall (fun cell => length cell = 3%nat) row -> (k < 3)%nat ->
  concat (alter (fun cell => <[k := v]> cell) j row)
  = <[(3 * j + k)%nat := v]> (concat row).
Proof.
  induction row as [|cell row IH]; intros j Hrow Hk; [reflexivity|].
  apply Forall_cons in Hrow as [Hcell Hrow].
  destruct j as [|j].
  - simpl. rewrite insert_app_l by lia. reflexivity.
  - change (cell ++ concat (alter (fun cell => <[k := v]> cell) j row)
            = <[(3 * S j + k)%nat := v]> (cell ++ concat row)).
    rewrite (IH j Hrow Hk).
    replace (3 * S j + k)%nat with (length cell + (3 * j + k))%nat by lia.
    rewrite insert_app_r. reflexivity.
Qed.

Lemma shape_row (h : list (list Z)) (buf : list (list loc)) (i : nat)
  (row : list loc) :
  Forall (fun l => length (h !!! l) = 3%nat) (cells buf) ->
  buf !! i = Some row ->
  Forall (fun cell => length cell = 3%nat) (map (fun l => h !!! l) row).
Proof.
  intros Hshape Hi. apply Forall_forall. intros cell Hcell.
  apply list_elem_of_In, in_map_iff in Hcell as (l & <- & Hl).
  rewrite Forall_forall in Hshape. apply Hshape.
  apply (elem_of_cells buf row); [|apply list_elem_of_In; exact Hl].
  eapply list_elem_of_lookup_2. exact Hi.
Qed.

(** [set_value] in terms of channels. *)
Lemma set_value_channels (m : t) (module channel value : Z) :
  well_built m -> 0 <= module -> 0 <= channel ->
  channels (heap (set_value m module channel value))
           (back_buffer (set_value m module channel value))
  = alter (fun chans => <[Z.to_nat channel := value]> chans)
          (Z.to_nat module)
          (channels (heap m) (back_buffer m)).
Proof.
  intros (Hwf & Hnd & Hshape) Hmod Hch. unfold channels.
  rewrite (set_value_back m module channel value Hwf Hnd Hmod Hch).
  change (map (fun row => concat row)) with (fmap (M := list) (@concat Z)).
  apply fmap_alter_at. intros x Hx. unfold contents in Hx.
  rewrite list_lookup_fmap in Hx.
  destruct (back_buffer m !! Z.to_nat module) as [row|] eqn:Hrow;
    [|discriminate].
  injection Hx as <-.
  rewrite concat_alter_insert.
  - f_equal. pose proof (Z.div_mod channel 3 ltac:(lia)).
    pose proof (Z.mod_pos_bound channel 3 ltac:(lia)).
    assert (0 <= channel / 3) by (apply Z.div_pos; lia). lia.
  - eapply shape_row; eassumption.
  - pose proof (Z.mod_pos_bound channel 3 ltac:(lia)). lia.
Qed.

(** The loop over the values of a data frame, from channel [channel] on. *)
Lemma set_values_ok (module : Z) (values : list Z) :
  forall m channel,
  well_built m -> 0 <= module -> 0 <= channel ->
  well_built (Controller.set_values m module channel values) /\
  channels (heap (Controller.set_values m module channel values))
           (back_buffer (Controller.set_values m module channel values))
  = alter (list_inserts (Z.to_nat channel) values) (Z.to_nat module)
          (channels (heap m) (back_buffer m)) /\
  contents (heap (Controller.set_values m module channel values))
           (front_buffer (Controller.set_values m module channel values))
  = contents (heap m) (front_buffer m).
Proof.
  induction values as [|v values IH]; intros m channel Hm Hmod Hch; simpl.
  - split; [exact Hm|]. split; [|reflexivity].
    symmetry. apply list_alter_id. reflexivity.
  - pose proof (set_value_well_built m module channel v Hm) as Hm1.
    destruct (IH (set_value m module channel v) (channel + 1) Hm1 Hmod)
      as (Hm' & Hchan & Hfront); [lia|].
    split; [exact Hm'|]. split.
    + rewrite Hchan, (set_value_channels m module channel v Hm Hmod Hch).
      rewrite list_alter_alter_eq. apply list_alter_ext; [|reflexivity].
      intros x _. simpl.
      replace (Z.to_nat (channel + 1)) with (S (Z.to_nat channel)) by lia.
      symmetry. apply list_insert_inserts_lt. lia.
    + rewrite Hfront. destruct Hm as [Hwf _].
      destruct (set_value_ok m module channel v Hwf) as (_ & _ & Hf & _).
      exact Hf.
Qed.

(** The loop of [run], frame after frame. *)
Lemma handle_frames_app (frames1 frames2 : list (list Z)) :
  forall m,
  Controller.handle_frames m (frames1 ++ frames2)
  = match Controller.handle_frames m frames1 with
    | (m1, None) => Controller.handle_frames m1 frames2
    | (m1, Some e) => (m1, Some e)
    end.
Proof.
  induction frames1 as [|f frames1 IH]; intros m; simpl; [reflexivity|].
  destruct (Controller.handle_frame m f) as [m'|e]; [apply IH | reflexivity].
Qed.

Lemma set_values_front (module : Z) (values : list Z) :
  forall m channel,
  wf m ->
  wf (Controller.set_values m module channel values) /\
  contents (heap (Controller.set_values m module channel values))
           (front_buffer (Controller.set_values m module channel values))
  = contents (heap m) (front_buffer m).
Proof.
  induction values as [|v values IH]; intros m channel Hwf; simpl.
  - split; [exact Hwf | reflexivity].
  - destruct (set_value_ok m module channel v Hwf) as (_ & _ & Hf & _ & Hwf1).
    destruct (IH _ (channel + 1) Hwf1) as [Hwf' Hf'].
    split; [exact Hwf'|]. rewrite Hf'. exact Hf.
Qed.

(** A frame other than the strobe frame leaves what the front buffer
    shows. *)
Lemma handle_frame_front (m m' : t) (frame : list Z) :
  wf m -> frame <> [0xfe] ->
  Controller.handle_frame m frame = Ok m' ->
  wf m' /\
  contents (heap m') (front_buffer m') = contents (heap m) (front_buffer m).
Proof.
  intros Hwf Hne. unfold Controller.handle_frame.
  destruct (decide (frame = [254])); [contradiction|].
  destruct frame as [|module values]; [discriminate|].
  intros [= <-]. apply set_values_front. exact Hwf.
Qed.

Lemma handle_frames_front (frames : list (list Z)) :
  forall m,
  wf m -> [0xfe] ∉ frames ->
  wf (fst (Controller.handle_frames m frames)) /\
  contents (heap (fst (Controller.handle_frames m frames)))
           (front_buffer (fst (Controller.handle_frames m frames)))
  = contents (heap m) (front_buffer m).
Proof.
  induction frames as [|f frames IH]; intros m Hwf Hno; simpl.
  - split; [exact Hwf | reflexivity].
  - apply not_elem_of_cons in Hno as [Hf Hno].
    destruct (Controller.handle_frame m f) as [m'|e] eqn:Hh; simpl.
    + destruct (handle_frame_front m m' f Hwf (not_eq_sym Hf) Hh)
        as [Hwf' Hfront].
      destruct (IH m' Hwf' Hno) as [Hwf'' Hfront'].
      split; [exact Hwf''|]. rewrite Hfront'. exact Hfront.
    + split; [exact Hwf | reflexivity].
Qed.

Lemma handle_frames_wf (frames : list (list Z)) :
  forall m, wf m -> wf (fst (Controller.handle_frames m frames)).
Proof.
  induction frames as [|f frames IH]; intros m Hwf; simpl; [exact Hwf|].
  destruct (Controller.handle_frame m f) as [m'|e] eqn:Hh; simpl;
    [|exact Hwf].
  apply IH. unfold Controller.handle_frame in Hh.
  destruct (decide (f = [254])).
  - injection Hh as <-. apply (strobe_ok m Hwf).
  - destruct f as [|module values]; [discriminate|].
    injection Hh as <-. apply set_values_front. exact Hwf.
Qed.
End Frames.

(** X14.  A data frame [module, v0, v1, ...] with a module number that is
    not negative writes [v0, v1, ...] over the channels [0, 1, ...] of that
    module in the back buffer, as far as the module has channels; the
    other modules, the values beyond the last channel of the module, a
    module that does not exist, and what the front buffer shows are left
    as they were.  The model stays well built. *)
Theorem X14_data_frame
  (m : Model.t) (module : Z) (values : list Z) :
  well_built m -> 0 <= module -> module :: values <> [0xfe] ->
  exists m',
    Controller.handle_frame m (module :: values) = Ok m' /\
    channels (Model.heap m') (Model.back_buffer m')
    = alter (list_inserts 0 values) (Z.to_nat module)
            (channels (Model.heap m) (Model.back_buffer m)) /\
    Model.contents (Model.heap m') (Model.front_buffer m')
    = Model.contents (Model.heap m) (Model.front_buffer m) /\
    well_built m'.
Proof.
  intros Hm Hmod Hne.
  exists (Controller.set_values m module 0 values).
  unfold Controller.handle_frame.
  destruct (decide (module :: values = [254])); [contradiction|].
  destruct (set_values_ok module values m 0 Hm Hmod ltac:(lia))
    as (Hm' & Hchan & Hfront).
  split; [reflexivity|]. split; [exact Hchan|]. split; assumption.
Qed.

Lemma X14_data_frame_witness :
  exists m',
    Controller.handle_frame (Model.init 2 2) (1 :: [7; 8; 9; 10; 11; 12; 13])
    = Ok m' /\
    channels (Model.heap m') (Model.back_buffer m')
    = alter (list_inserts 0 [7; 8; 9; 10; 11; 12; 13]) (Z.to_nat 1)
            (channels (Model.heap (Model.init 2 2))
                      (Model.back_buffer (Model.init 2 2))) /\
    Model.contents (Model.heap m') (Model.front_buffer m')
    = Model.contents (Model.heap (Model.init 2 2))
                     (Model.front_buffer (Model.init 2 2)) /\
    well_built m'.
Proof.
  apply (X14_data_frame (Model.init 2 2) 1 [7; 8; 9; 10; 11; 12; 13]).
  - unfold well_built, Model.wf. apply (bool_decide_unpack _).
    vm_compute. exact I.
  - lia.
  - discriminate.
Defined.

(** X15.  The front buffer shows the back buffer as of the last strobe
    frame: when the frames before a strobe frame [[0xfe]] are handled
    without an exception, then whatever frames other than the strobe frame
    follow it, and whether or not one of them ends the loop, the front
    buffer shows afterwards what the back buffer showed when the strobe
    frame arrived. *)
Theorem X15_front_is_last_strobe
  (m : Model.t) (before later : list (list Z)) :
  Model.wf m ->
  snd (Controller.handle_frames m before) = None ->
  ~ In [0xfe] later ->
  Model.contents
    (Model.heap (fst (Controller.handle_frames m (before ++ [0xfe] :: later))))
    (Model.front_buffer
       (fst (Controller.handle_frames m (before ++ [0xfe] :: later))))
  = Model.contents
      (Model.heap (fst (Controller.handle_frames m before)))
      (Model.back_buffer (fst (Controller.handle_frames m before))).
Proof.
  intros Hwf Hnone Hlater.
  rewrite handle_frames_app.
  pose proof (handle_frames_wf before m Hwf) as Hwf1.
  destruct (Controller.handle_frames m before) as [m1 o]. simpl in *.
  subst o. simpl.
  destruct (strobe_ok m1 Hwf1) as (_ & _ & Hfront & _ & _ & Hwf2).
  destruct (handle_frames_front later (Model.strobe m1) Hwf2) as [_ Hkeep].
  - intros Hin. apply Hlater, list_elem_of_In, Hin.
  - rewrite Hkeep. exact Hfront.
Qed.

Lemma X15_front_is_last_strobe_witness :
  Model.contents
    (Model.heap (fst (Controller.handle_frames (Model.init 1 1)
                        ([[0; 5; 6]] ++ [0xfe] :: [[0; 7]; []; [0; 8]]))))
    (Model.front_buffer
       (fst (Controller.handle_frames (Model.init 1 1)
               ([[0; 5; 6]] ++ [0xfe] :: [[0; 7]; []; [0; 8]]))))
  = Model.contents
      (Model.heap (fst (Controller.handle_frames (Model.init 1 1) [[0; 5; 6]])))
      (Model.back_buffer
         (fst (Controller.handle_frames (Model.init 1 1) [[0; 5; 6]]))).
Proof.
  apply (X15_front_is_last_strobe (Model.init 1 1) [[0; 5; 6]]
           [[0; 7]; []; [0; 8]]).
  - unfold Model.wf. apply (bool_decide_unpack _). vm_compute. exact I.
  - reflexivity.
  - simpl. intros [H|[H|[H|[]]]]; discriminate H.
Defined.

(** ** The two decoders of the bus protocol, and the emulator end to end *)

Lemma bus_wire_frame (lens : list nat) (c : Command) :
  bus_fits lens c ->
  bus_wire c = START_OF_CMD_MARKER :: escape (frame_of c).
Proof.
  destruct c as [| |addr payload| | |]; simpl; try contradiction.
  - intros _. reflexivity.
  - intros (He & Hs & _ & _). f_equal.
    change (escape (addr :: payload)) with (escape_byte addr ++ escape payload).
    unfold escape_byte, in_UNESCAPE_values.
    destruct (Z.eqb_spec addr 84); [contradiction|].
    destruct (Z.eqb_spec addr 85); [contradiction|]. reflexivity.
Qed.

Lemma concat_shift {A B : Type} (a : B) (f : A -> list B) (xs : list A) :
  concat (map (fun x => a :: f x) xs) ++ [a]
  = a :: concat (map (fun x => f x ++ [a]) xs).
Proof.
  induction xs as [|x xs IH]; [reflexivity|].
  simpl. rewrite <- app_assoc, IH. rewrite <- app_assoc. reflexivity.
Qed.

Lemma bus_stream_plain (cmds : list Command) :
  bus_stream (map (fun c => ([], c)) cmds) = concat (map bus_wire cmds).
Proof.
  unfold bus_stream. rewrite map_map. reflexivity.
Qed.

(** X16.  The two decoders agree on well-formed streams.  For commands
    that fit the configuration, sent one after the other after bytes
    without a start marker, [BusProtocol.read] yields the commands, and
    [Controller.read_frames], once the start marker of a next frame has
    arrived, yields the frame of each command: [[0xfe]] for a strobe and
    the address followed by the channel values otherwise. *)
Theorem X16_decoders_agree
  (lens : list nat) (A : list Z) (cmds : list Command) :
  ~ In START_OF_CMD_MARKER A ->
  Forall (bus_fits lens) cmds ->
  yielded (fst (BusProtocol.read lens (A ++ concat (map bus_wire cmds))))
  = cmds /\
  fst (Controller.read_frames (A ++ concat (map bus_wire cmds) ++ [0x55]))
  = map frame_of cmds.
Proof.
  intros HA Hcmds. split.
  - assert (HA' : START_OF_CMD_MARKER ∉ A)
      by (intros Hin; apply HA, list_elem_of_In, Hin).
    destruct (bus_garbage lens A BusProtocol.Skipping (or_introl eq_refl) HA')
      as (s1 & Hs1 & Hfeed1).
    destruct (bus_decode_stream lens (map (fun c => ([], c)) cmds) [] s1 Hs1)
      as (ys & s' & Hfeed & Hy).
    + apply Forall_map. eapply Forall_impl; [exact Hcmds|].
      simpl. intros c Hc. split; [apply not_elem_of_nil | exact Hc].
    + apply not_elem_of_nil.
    + rewrite app_nil_r, bus_stream_plain in Hfeed.
      unfold BusProtocol.read.
      rewrite (feed_running _ _ _ _ _ _ Hfeed1), Hfeed. simpl.
      rewrite yielded_app, yielded_repeat_None, Hy, map_map. simpl.
      apply map_id.
  - assert (Hwire : map bus_wire cmds
                    = map (fun c => START_OF_CMD_MARKER :: escape (frame_of c))
                          cmds).
    { apply map_ext_Forall. eapply Forall_impl; [exact Hcmds|].
      intros c Hc. exact (bus_wire_frame lens c Hc). }
    rewrite Hwire. change [85] with [START_OF_CMD_MARKER].
    rewrite concat_shift.
    pose proof (X := for_loop_frames (map frame_of cmds) []).
    rewrite map_map in X. simpl in X. rewrite app_nil_r in X.
    unfold Controller.read_frames.
    rewrite (for_loop_running _ _ _ _ _ (for_loop_ignore [] A HA)).
    simpl. unfold Controller.START_MARK in X.
    unfold START_OF_CMD_MARKER. rewrite X. reflexivity.
Qed.

Lemma X16_decoders_agree_witness :
  yielded (fst (BusProtocol.read [2%nat]
     ([9] ++ concat (map bus_wire
                       [BusSetChannelsCommand 0 [0x55; 7]; BusStrobeCommand]))))
  = [BusSetChannelsCommand 0 [0x55; 7]; BusStrobeCommand] /\
  fst (Controller.read_frames
     ([9] ++ concat (map bus_wire
                       [BusSetChannelsCommand 0 [0x55; 7]; BusStrobeCommand])
          ++ [0x55]))
  = map frame_of [BusSetChannelsCommand 0 [0x55; 7]; BusStrobeCommand].
Proof.
  apply (X16_decoders_agree [2%nat] [9]
           [BusSetChannelsCommand 0 [0x55; 7]; BusStrobeCommand]).
  - simpl. intros [H|[]]. discriminate H.
  - repeat constructor; discriminate.
Defined.


